(** * SN-Sifu: ingestion and retrieval core

    A shallow embedding of [app/core/embedding_manager.py] and
    [app/core/article_processor.py] (with the part of
    [app/core/cosmos_db_manager.py] they call), and the properties of the
    design document that are about them; then further properties of the
    same code and of [chunk_list], [truncate_string] and [safe_get] of
    [app/utils/utils.py].

    Conventions of the embedding.
    - A Python [dict] with string keys is a [gmap string _]; a row of the
      uploaded table is a [gmap string string] (text cells), a stored JSON
      document a [gmap string value].
    - A finite Python [float] is a rational [Q]: the order and the equality
      of the finite floats are those of the rationals, and rounding and
      overflow are outside the model.  A division by zero gives an infinity
      or NaN, as numpy's does.  [sqrt], the parsing of a decimal string, the
      printing of a float and what [list.sort] does with keys that [<] does
      not order are parameters of the development.
    - An [async] method is a function of the world it runs in, returning the
      raised exception or the value together with the new world.  The world
      holds the document store and the chronicle of the effects performed so
      far (newest first); the embedding provider, the clock and the faults of
      the store are functions of that chronicle. *)

From Stdlib Require Import QArith Lqa Sorted Permutation.
From stdpp Require Import gmap strings list fin_maps pretty sorting.

Local Open Scope string_scope.
Local Open Scope list_scope.
Local Open Scope Z_scope.

(** ** Python exceptions *)

Inductive exn : Type :=
  | KeyError (key : string)
  | IndexError
  | TypeError
  | ValueError (msg : string)
  | ShapeError (n m : nat)            (* numpy's ValueError: shapes not aligned *)
  | ProviderError (code : nat)        (* any exception of the OpenAI client *)
  | RetryError (last : exn)           (* tenacity.RetryError(last_attempt) *)
  | CosmosHttpResponseError (code : nat).

Definition result (A : Type) : Type := exn + A.

Definition Raise {A : Type} (e : exn) : result A := inl e.
Definition Return {A : Type} (a : A) : result A := inr a.

Definition rbind {A B : Type} (r : result A) (k : A -> result B) : result B :=
  match r with
  | inl e => inl e
  | inr a => k a
  end.

(** ** Floats

    A finite float is a rational.  numpy divides by zero without raising:
    [0/0] is NaN and [x/0] an infinity.  NaN is not less than, not greater
    than and not equal to anything, itself included. *)

Inductive float64 : Type :=
  | Finite (q : Q)
  | Infinity (positive : bool)
  | NaN.

(** [x / y] of two finite floats.  The divisors of this program are
    products of norms, so a zero divisor is [+0.0] and the infinity has the
    sign of [x]. *)
Definition float_div (x y : Q) : float64 :=
  if Qeq_bool y 0 then
    if Qeq_bool x 0 then NaN else Infinity (Qle_bool 0 x)
  else Finite (x / y).

(** [a < b] *)
Definition float_ltb (a b : float64) : bool :=
  match a, b with
  | Finite x, Finite y =>
      match Qlt_le_dec x y with
      | left _ => true
      | right _ => false
      end
  | Finite _, Infinity positive => positive
  | Infinity positive, Finite _ => negb positive
  | Infinity p, Infinity q => negb p && q
  | NaN, _ | _, NaN => false
  end.

(** [a == b] *)
Definition float_eqb (a b : float64) : bool :=
  match a, b with
  | Finite x, Finite y => Qeq_bool x y
  | Infinity p, Infinity q => Bool.eqb p q
  | _, _ => false
  end.

Definition is_number (a : float64) : bool :=
  match a with
  | NaN => false
  | _ => true
  end.

Definition float_lt (a b : float64) : Prop := float_ltb a b = true.
Definition float_eq (a b : float64) : Prop := float_eqb a b = true.
Definition float_le (a b : float64) : Prop := float_lt a b \/ float_eq a b.

(** The same float: both NaN, or equal. *)
Definition float_same (a b : float64) : Prop :=
  match a, b with
  | NaN, NaN => True
  | _, _ => float_eq a b
  end.

(** ** Vectors and the similarity functions of [EmbeddingManager] *)

Definition vector := list Q.

Module Similarity.

Fixpoint dot_aligned (a b : vector) : Q :=
  match a, b with
  | x :: a', y :: b' => (x * y + dot_aligned a' b')%Q
  | _, _ => 0%Q
  end.

(** [np.dot] of two one-dimensional arrays: the shapes must be equal. *)
Definition np_dot (a b : vector) : result Q :=
  if Nat.eqb (length a) (length b)
  then Return (dot_aligned a b)
  else Raise (ShapeError (length a) (length b)).

Section WithSqrt.

Variable sqrt : Q -> Q.

Definition np_linalg_norm (a : vector) : Q := sqrt (dot_aligned a a).

(** [cosine_similarity], a static method:
    [np.dot(vec1, vec2) / (norm(vec1) * norm(vec2))].  The numerator is
    evaluated first, so mismatched shapes raise before any norm is taken;
    a vector of norm zero makes the quotient NaN, not an exception. *)
Definition cosine_similarity (embedding1 embedding2 : vector) : result float64 :=
  rbind (np_dot embedding1 embedding2) (fun d =>
    Return (float_div d (np_linalg_norm embedding1 * np_linalg_norm embedding2)%Q)).

(** The list comprehension of [find_most_similar]: the first candidate
    that raises ends the comprehension. *)
Fixpoint similarities_of (query_embedding : vector) (embeddings : list vector)
  : result (list float64) :=
  match embeddings with
  | [] => Return []
  | emb :: rest =>
      rbind (cosine_similarity query_embedding emb) (fun s =>
      rbind (similarities_of query_embedding rest) (fun ss =>
      Return (s :: ss)))
  end.

End WithSqrt.

(** *** [sorted(range(n), key=..., reverse=True)]

    CPython's [list.sort] compares keys with [<] only and is stable; with
    [reverse=True] it reverses the list, sorts it, and reverses the result,
    which keeps equal keys in their original order.

    When the keys are numbers, [<] orders them and the result is the one
    stable sorted list.  With a NaN among the keys it does not: then a list
    in which no element is less than the one before it counts as one run
    and is left as it is, and any other list ends as a permutation that the
    merge strategy of the interpreter decides.  That strategy is a
    parameter, [tim]: the permutation is the one that inserting by the
    comparison [tim keys] gives, and every permutation is given by some
    comparison. *)

Definition key_lt (similarities : list float64) (i j : nat) : bool :=
  float_ltb (nth i similarities (Finite 0)) (nth j similarities (Finite 0)).

(** Insert [x] behind every element that is not greater than it. *)
Fixpoint insert_stable (lt : nat -> nat -> bool) (x : nat) (l : list nat) : list nat :=
  match l with
  | [] => [x]
  | y :: l' => if lt x y then x :: y :: l' else y :: insert_stable lt x l'
  end.

Definition sort_stable (lt : nat -> nat -> bool) (l : list nat) : list nat :=
  fold_left (fun acc x => insert_stable lt x acc) l [].

(** No element is less than the one before it. *)
Fixpoint nondescending (lt : nat -> nat -> bool) (l : list nat) : bool :=
  match l with
  | x :: (y :: _) as rest => negb (lt y x) && nondescending lt rest
  | _ => true
  end.

Definition list_sort (tim : list float64 -> nat -> nat -> bool)
    (similarities : list float64) (l : list nat) : list nat :=
  if forallb is_number similarities then sort_stable (key_lt similarities) l
  else if nondescending (key_lt similarities) l then l
  else sort_stable (tim similarities) l.

Definition sorted_reverse (tim : list float64 -> nat -> nat -> bool)
    (similarities : list float64) (l : list nat) : list nat :=
  rev (list_sort tim similarities (rev l)).

(** The slice [l[:k]] of Python, for any integer [k]. *)
Definition slice_to {A : Type} (l : list A) (k : Z) : list A :=
  if (0 <=? k)%Z then firstn (Z.to_nat k) l
  else firstn (Z.to_nat (Z.of_nat (length l) + k)) l.

(** The second line of [find_most_similar]. *)
Definition rank (tim : list float64 -> nat -> nat -> bool)
    (similarities : list float64) (top_k : Z) : list nat :=
  slice_to (sorted_reverse tim similarities (seq 0 (length similarities))) top_k.

Definition find_most_similar (sqrt : Q -> Q) (tim : list float64 -> nat -> nat -> bool)
    (query_embedding : vector) (embeddings : list vector) (top_k : Z)
  : result (list nat) :=
  rbind (similarities_of sqrt query_embedding embeddings) (fun similarities =>
  Return (rank tim similarities top_k)).

(** The order the design asks of the ranking: a greater similarity first,
    and of two equal similarities the smaller index first. *)
Definition similarity_at (similarities : list float64) (i : nat) : float64 :=
  nth i similarities (Finite 0).

Definition ranks_before (similarities : list float64) (i j : nat) : Prop :=
  float_lt (similarity_at similarities j) (similarity_at similarities i) \/
  (float_eq (similarity_at similarities i) (similarity_at similarities j) /\ (i < j)%nat).


End Similarity.

(** ** Documents, the world and its effects *)

Inductive value : Type :=
  | VStr (s : string)
  | VVec (v : vector).

Abbreviation dict := (gmap string value).
Abbreviation row := (gmap string string).

Inductive event : Type :=
  | EvEmbed (input : list string)     (* client.embeddings.create(input=...) *)
  | EvSleep                           (* the wait between two attempts *)
  | EvNow (stamp : string)            (* datetime.now().isoformat() *)
  | EvRead (item_id : string)         (* container.read_item *)
  | EvUpsert (item : dict)            (* container.upsert_item *)
  | EvQuery (item_type : string).     (* container.query_items *)

Record World : Type := mkWorld {
  store : gmap string dict;
  chronicle : list event
}.

(** What the code does not decide: the collaborators and the float
    conversions.  Each collaborator answers from the chronicle of what
    happened before the call. *)
Record Env : Type := mkEnv {
  provider : list event -> list string -> result (list vector);
  clock : list event -> string;
  store_fault : list event -> option nat;
  float_of_str : string -> option Q;
  str_of_float : Q -> string;
  str_of_list : vector -> string
}.

(** The dictionary built by [get_item_statistics]. *)
Record Stats : Type := mkStats {
  total_kb_articles : nat;
  total_tickets : nat;
  kb_article_categories : gmap string nat;
  ticket_quality_distribution : gmap string nat;
  user_proficiency_distribution : gmap string nat
}.

Definition M (A : Type) : Type := World -> result A * World.

Definition ret {A : Type} (a : A) : M A := fun w => (inr a, w).

Definition raise {A : Type} (e : exn) : M A := fun w => (inl e, w).

Definition bind {A B : Type} (m : M A) (k : A -> M B) : M B :=
  fun w =>
    match m w with
    | (inl e, w') => (inl e, w')
    | (inr a, w') => k a w'
    end.

Definition lift {A : Type} (r : result A) : M A := fun w => (r, w).

Notation "'let!' x ':=' m 'in' k" := (bind m (fun x => k))
  (at level 10, x name, m at level 100, k at level 200).

Definition record_event (ev : event) (w : World) : World :=
  mkWorld (store w) (ev :: chronicle w).

(** The events performed between two worlds are the difference of their
    chronicles. *)
Definition performed (w w' : World) (evs : list event) : Prop :=
  chronicle w' = evs ++ chronicle w.

Definition is_embed (ev : event) : bool :=
  match ev with EvEmbed _ => true | _ => false end.

Definition is_read (ev : event) : bool :=
  match ev with EvRead _ => true | _ => false end.

Definition is_upsert (ev : event) : bool :=
  match ev with EvUpsert _ => true | _ => false end.

Section Program.

Variable E : Env.

(** *** The collaborators *)

Definition embeddings_create (input : list string) : M (list vector) :=
  fun w => (provider E (chronicle w) input, record_event (EvEmbed input) w).

Definition sleep : M unit :=
  fun w => (inr tt, record_event EvSleep w).

Definition datetime_now_isoformat : M string :=
  fun w => let stamp := clock E (chronicle w) in
           (inr stamp, record_event (EvNow stamp) w).

(** *** [CosmosDBManager] *)

(** [get_item]: a missing item is [None], any other fault is raised. *)
Definition get_item (item_id : string) : M (option dict) :=
  fun w =>
    match store_fault E (chronicle w) with
    | Some code => (inl (CosmosHttpResponseError code), record_event (EvRead item_id) w)
    | None => (inr (store w !! item_id), record_event (EvRead item_id) w)
    end.

(** [upsert_item]: the container files the document under its ["id"]. *)
Definition upsert_item (item : dict) : M dict :=
  fun w =>
    match store_fault E (chronicle w) with
    | Some code => (inl (CosmosHttpResponseError code), record_event (EvUpsert item) w)
    | None =>
        match item !! "id" with
        | Some (VStr item_id) =>
            (inr item, mkWorld (<[item_id := item]> (store w)) (EvUpsert item :: chronicle w))
        | _ => (inl (CosmosHttpResponseError 400), record_event (EvUpsert item) w)
        end
    end.

Definition has_type (item_type : string) (item : dict) : bool :=
  match item !! "type" with
  | Some (VStr t) => String.eqb t item_type
  | _ => false
  end.

Definition stored_of_type (item_type : string) (w : World) : list dict :=
  List.filter (has_type item_type) (map snd (map_to_list (store w))).

(** [get_items_by_type]: [SELECT * FROM c WHERE c.type = @type]. *)
Definition get_items_by_type (item_type : string) : M (list dict) :=
  fun w =>
    match store_fault E (chronicle w) with
    | Some code => (inl (CosmosHttpResponseError code), record_event (EvQuery item_type) w)
    | None =>
        (inr (List.filter (has_type item_type) (map snd (map_to_list (store w)))),
         record_event (EvQuery item_type) w)
    end.

(** *** [EmbeddingManager] *)

Definition newline : Ascii.ascii := Ascii.ascii_of_nat 10.
Definition space : Ascii.ascii := Ascii.ascii_of_nat 32.

(** [text.replace("\n", " ")] *)
Fixpoint replace_newlines (text : string) : string :=
  match text with
  | EmptyString => EmptyString
  | String c rest =>
      String (if Ascii.eqb c newline then space else c) (replace_newlines rest)
  end.

(** The body of [get_embedding], one attempt. *)
Definition get_embedding_attempt (text : string) : M vector :=
  let text := replace_newlines text in
  let! data := embeddings_create [text] in
  match data with
  | [] => raise IndexError
  | embedding :: _ => ret embedding
  end.

Definition stop_after_attempt : nat := 5.

(** tenacity's [@retry]: call again after a wait while the call raises;
    when the attempt that raised was the last one allowed, raise
    [RetryError] around it.  [further] counts the attempts still allowed
    after the current one. *)
Fixpoint retry {A : Type} (further : nat) (call : M A) : M A :=
  fun w =>
    match call w with
    | (inr a, w') => (inr a, w')
    | (inl e, w') =>
        match further with
        | O => (inl (RetryError e), w')
        | S n => retry n call (record_event EvSleep w')
        end
    end.

Definition get_embedding (text : string) : M vector :=
  retry (stop_after_attempt - 1) (get_embedding_attempt text).

Definition get_embeddings (texts : list string) : M (list vector) :=
  let texts := map replace_newlines texts in
  let! data := embeddings_create texts in
  match data with
  | [] => raise IndexError            (* embeddings[0] in the log line *)
  | _ :: _ => ret data
  end.

Fixpoint range_from (fuel : nat) (i stop step : Z) : list Z :=
  match fuel with
  | O => []
  | S fuel' =>
      if (if 0 <? step then i <? stop else stop <? i)
      then i :: range_from fuel' (i + step) stop step
      else []
  end.

(** [range(start, stop, step)] *)
Definition py_range (start stop step : Z) : result (list Z) :=
  if step =? 0 then Raise (ValueError "range() arg 3 must not be zero")
  else Return (range_from (Z.abs_nat (stop - start)) start stop step).

(** [l[i:j]] for a start [i] that is not negative. *)
Definition py_slice {A : Type} (l : list A) (i j : Z) : list A :=
  let hi := if j <? 0 then Z.max 0 (Z.of_nat (length l) + j) else j in
  firstn (Z.to_nat (hi - i)) (skipn (Z.to_nat i) l).

Fixpoint embed_batches (texts : list string) (batch_size : Z)
    (starts : list Z) (all_embeddings : list vector) : M (list vector) :=
  match starts with
  | [] => ret all_embeddings
  | i :: starts' =>
      let batch := py_slice texts i (i + batch_size) in
      let! batch_embeddings := get_embeddings batch in
      embed_batches texts batch_size starts' (all_embeddings ++ batch_embeddings)
  end.

Definition get_embedding_batch (texts : list string) (batch_size : Z)
  : M (list vector) :=
  let! starts := lift (py_range 0 (Z.of_nat (length texts)) batch_size) in
  embed_batches texts batch_size starts [].

(** *** [ArticleProcessor] *)

(** [d[key]] *)
Definition getitem {V : Type} (d : gmap string V) (key : string) : M V :=
  match d !! key with
  | Some v => ret v
  | None => raise (KeyError key)
  end.

(** How an f-string renders a field. *)
Definition py_str (v : value) : string :=
  match v with
  | VStr s => s
  | VVec l => str_of_list E l
  end.

(** [float(v)] *)
Definition py_float (v : value) : M Q :=
  match v with
  | VStr s =>
      match float_of_str E s with
      | Some q => ret q
      | None => raise (ValueError "could not convert string to float")
      end
  | VVec _ => raise TypeError
  end.

(** The truth value of a dict: it is not empty. *)
Definition truthy {V : Type} (d : gmap string V) : bool :=
  negb (Nat.eqb (size d) 0).

(** The loop [for key, value in article.items(): existing[key] = value]. *)
Definition overlay (article existing : dict) : dict := article ∪ existing.

Definition kb_article_document (item_id version category title introduction
    instructions keywords : value) (updated : string) (embedding : vector) : dict :=
  <["id" := item_id]> (
  <["type" := VStr "kb_article"]> (
  <["version" := version]> (
  <["category" := category]> (
  <["title" := title]> (
  <["introduction" := introduction]> (
  <["instructions" := instructions]> (
  <["keywords" := keywords]> (
  <["updated" := VStr updated]> (
  <["embedding" := VVec embedding]> ∅))))))))).

Definition process_kb_article (article : row) : M dict :=
  let! item_id := getitem article "KB Article #" in
  let! existing_article := get_item item_id in
  let! article :=
    match existing_article with
    | Some existing =>
        if truthy existing then
          let merged := overlay (VStr <$> article) existing in
          let! old := getitem merged "Version" in
          let! number := py_float old in
          ret (<["Version" := VStr (str_of_float E (number + (1 # 10))%Q)]> merged)
        else ret (VStr <$> article)
    | None => ret (VStr <$> article)
    end in
  let! title := getitem article "Title" in
  let! introduction := getitem article "Introduction" in
  let! instructions := getitem article "Instructions" in
  let content :=
    py_str title +:+ " " +:+ py_str introduction +:+ " " +:+ py_str instructions in
  let! embedding := get_embedding content in
  let! item_id := getitem article "KB Article #" in
  let! version := getitem article "Version" in
  let! category := getitem article "Category" in
  let! title := getitem article "Title" in
  let! introduction := getitem article "Introduction" in
  let! instructions := getitem article "Instructions" in
  let! keywords := getitem article "Keywords" in
  let! updated := datetime_now_isoformat in
  let processed_article :=
    kb_article_document item_id version category title introduction
      instructions keywords updated embedding in
  let! _stored := upsert_item processed_article in
  ret processed_article.

Definition ticket_id (tracking_index stamp : string) : string :=
  tracking_index +:+ "_" +:+ stamp.

Definition optional_fields : list string :=
  [ "summarize_ticket_explanation"; "ticket_quality_explanation";
    "user_proficiency_level_explanation"; "potential_impact_explanation";
    "resolution_appropriateness_explanation"; "potential_root_cause_explanation" ].

(** The loop [for field in optional_fields: if field in ticket: ...]. *)
Definition copy_optional (ticket : row) (processed_ticket : dict) : dict :=
  fold_left (fun acc field =>
               match ticket !! field with
               | Some v => <[field := VStr v]> acc
               | None => acc
               end) optional_fields processed_ticket.

Definition ticket_document (item_id tracking_index description close_notes summary
    ticket_quality user_proficiency potential_impact resolution_appropriateness
    potential_root_cause : string) (embedding : vector) (created_at : string) : dict :=
  <["id" := VStr item_id]> (
  <["type" := VStr "ticket"]> (
  <["tracking_index" := VStr tracking_index]> (
  <["description" := VStr description]> (
  <["close_notes" := VStr close_notes]> (
  <["summary" := VStr summary]> (
  <["ticket_quality" := VStr ticket_quality]> (
  <["user_proficiency" := VStr user_proficiency]> (
  <["potential_impact" := VStr potential_impact]> (
  <["resolution_appropriateness" := VStr resolution_appropriateness]> (
  <["potential_root_cause" := VStr potential_root_cause]> (
  <["embedding" := VVec embedding]> (
  <["created_at" := VStr created_at]> ∅)))))))))))).

Definition process_ticket (ticket : row) : M dict :=
  let! description := getitem ticket "Description" in
  let! close_notes := getitem ticket "Close Notes" in
  let! summary := getitem ticket "summarize_ticket" in
  let content := description +:+ " " +:+ close_notes +:+ " " +:+ summary in
  let! embedding := get_embedding content in
  let! tracking_index := getitem ticket "tracking_index" in
  let! stamp := datetime_now_isoformat in
  let! tracking_index' := getitem ticket "tracking_index" in
  let! description := getitem ticket "Description" in
  let! close_notes := getitem ticket "Close Notes" in
  let! summary := getitem ticket "summarize_ticket" in
  let! ticket_quality := getitem ticket "ticket_quality" in
  let! user_proficiency := getitem ticket "user_proficiency_level" in
  let! potential_impact := getitem ticket "potential_impact" in
  let! resolution_appropriateness := getitem ticket "resolution_appropriateness" in
  let! potential_root_cause := getitem ticket "potential_root_cause" in
  let! created_at := datetime_now_isoformat in
  let processed_ticket :=
    copy_optional ticket
      (ticket_document (ticket_id tracking_index stamp) tracking_index' description
         close_notes summary ticket_quality user_proficiency potential_impact
         resolution_appropriateness potential_root_cause embedding created_at) in
  let! _stored := upsert_item processed_ticket in
  ret processed_ticket.

(** The body of the loop of [process_dataframe] up to the [append]. *)
Definition process_item (item_type : string) (item : row) : M dict :=
  if String.eqb item_type "kb_article" then process_kb_article item
  else if String.eqb item_type "ticket" then process_ticket item
  else raise (ValueError ("Invalid item type: " +:+ item_type)).

Fixpoint process_rows (rows : list row) (item_type : string)
    (processed_items : list dict) : M (list dict) :=
  match rows with
  | [] => ret processed_items
  | item :: rows' =>
      let! processed_item := process_item item_type item in
      process_rows rows' item_type (processed_items ++ [processed_item])
  end.

Definition process_dataframe (df : list row) (item_type : string) : M (list dict) :=
  process_rows df item_type [].

(** *** [get_item_statistics] *)

(** [d.get(key, fallback)] *)
Definition dict_get (d : dict) (key : string) (fallback : value) : value :=
  default fallback (d !! key).

(** [table[key] = table.get(key, 0) + 1]; a list cannot be a key. *)
Definition tally (table : gmap string nat) (key : value) : result (gmap string nat) :=
  match key with
  | VStr k => Return (<[k := (default 0 (table !! k) + 1)%nat]> table)
  | VVec _ => Raise TypeError
  end.

Fixpoint count_articles (kb_articles : list dict) (stats : Stats) : result Stats :=
  match kb_articles with
  | [] => Return stats
  | article :: rest =>
      let category := dict_get article "category" (VStr "Unknown") in
      rbind (tally (kb_article_categories stats) category) (fun categories =>
      count_articles rest
        (mkStats (total_kb_articles stats) (total_tickets stats) categories
           (ticket_quality_distribution stats) (user_proficiency_distribution stats)))
  end.

Fixpoint count_tickets (tickets : list dict) (stats : Stats) : result Stats :=
  match tickets with
  | [] => Return stats
  | ticket :: rest =>
      let quality := dict_get ticket "ticket_quality" (VStr "Unknown") in
      let proficiency := dict_get ticket "user_proficiency" (VStr "Unknown") in
      rbind (tally (ticket_quality_distribution stats) quality) (fun qualities =>
      rbind (tally (user_proficiency_distribution stats) proficiency) (fun proficiencies =>
      count_tickets rest
        (mkStats (total_kb_articles stats) (total_tickets stats)
           (kb_article_categories stats) qualities proficiencies)))
  end.

(** The part of [get_item_statistics] after the two queries. *)
Definition item_statistics (kb_articles tickets : list dict) : result Stats :=
  let stats := mkStats (length kb_articles) (length tickets) ∅ ∅ ∅ in
  rbind (count_articles kb_articles stats) (fun stats =>
  count_tickets tickets stats).

Definition get_item_statistics : M Stats :=
  let! kb_articles := get_items_by_type "kb_article" in
  let! tickets := get_items_by_type "ticket" in
  lift (item_statistics kb_articles tickets).

End Program.

(** The group a record is counted in. *)
Definition group_of (attribute : string) (item : dict) : value :=
  dict_get item attribute (VStr "Unknown").

Definition in_group (attribute group : string) (item : dict) : bool :=
  match group_of attribute item with
  | VStr g => String.eqb g group
  | VVec _ => false
  end.

(** A list cannot be the key of a dict. *)
Definition hashable (v : value) : bool :=
  match v with VStr _ => true | VVec _ => false end.

Definition groupable (attribute : string) (items : list dict) : bool :=
  forallb (fun item => hashable (group_of attribute item)) items.

(** ** A concrete environment

    A provider that always answers one fixed vector per text, a clock that
    ticks with every effect, a store without faults, and decimal numbers
    with one fractional digit.  The two conversions stand in for [float]
    and [str]: they agree with Python on the decimals used below (["1.0"],
    ["3.0"], and [1.0 + 0.1] printed as ["1.1"]), not where the binary
    rounding of a float shows in its digits. *)

Module Demo.

Definition digit_of (c : Ascii.ascii) : option Z :=
  let n := Z.of_nat (Ascii.nat_of_ascii c) in
  if (48 <=? n) && (n <=? 57) then Some (n - 48) else None.

Definition dot : Ascii.ascii := Ascii.ascii_of_nat 46.

(** Reads [int.frac]: the digits so far, and the power of ten of the
    fraction once the dot is passed. *)
Fixpoint read_decimal (s : string) (digits : Z) (scale : option Z) : option Q :=
  match s with
  | EmptyString =>
      Some (Qred (digits # Z.to_pos (default 1 scale)))
  | String c rest =>
      if Ascii.eqb c dot then
        match scale with
        | None => read_decimal rest digits (Some 1)
        | Some _ => None
        end
      else
        match digit_of c with
        | Some d => read_decimal rest (digits * 10 + d) ((fun k => k * 10) <$> scale)
        | None => None
        end
  end.

Definition float_of_str (s : string) : option Q :=
  match s with
  | EmptyString => None
  | _ => read_decimal s 0 None
  end.

Definition str_of_float (q : Q) : string :=
  let tenths := (Qnum q * 10) / Zpos (Qden q) in
  pretty (tenths / 10) +:+ "." +:+ pretty (tenths mod 10).

Definition unit_vector : vector := [1; 0; 0]%Q.

Definition env : Env :=
  mkEnv (fun _ input => Return (map (fun _ => unit_vector) input))
        (fun history => "T" +:+ pretty (length history))
        (fun _ => None)
        float_of_str
        str_of_float
        (fun _ => "[...]").

(** A provider that fails on its first [failures] calls. *)
Definition flaky (failures : nat) : Env :=
  mkEnv (fun history input =>
           let n := length (List.filter is_embed history) in
           if (n <? failures)%nat then Raise (ProviderError n)
           else Return (map (fun _ => unit_vector) input))
        (clock env) (store_fault env) float_of_str str_of_float (str_of_list env).

Definition empty_world : World := mkWorld ∅ [].

Definition kb1 (version : string) : row :=
  <["KB Article #" := "KB1"]> (
  <["Version" := version]> (
  <["Category" := "Howto"]> (
  <["Title" := "Reset"]> (
  <["Introduction" := "Intro"]> (
  <["Instructions" := "Steps"]> (
  <["Keywords" := "password"]> ∅)))))).

Definition ticket1 : row :=
  <["tracking_index" := "T001"]> (
  <["Description" := "Cannot log in"]> (
  <["Close Notes" := "Reset done"]> (
  <["summarize_ticket" := "Password reset"]> (
  <["ticket_quality" := "Good"]> (
  <["user_proficiency_level" := "Beginner"]> (
  <["potential_impact" := "Low"]> (
  <["resolution_appropriateness" := "Appropriate"]> (
  <["potential_root_cause" := "Forgotten password"]> ∅)))))))).

(** A store with an article without category, an article with one, and a
    ticket without proficiency. *)
Definition mixed_world : World :=
  mkWorld
    (<["A1" := <["id" := VStr "A1"]> (<["type" := VStr "kb_article"]> ∅)]> (
     <["A2" := <["id" := VStr "A2"]> (<["type" := VStr "kb_article"]> (
               <["category" := VStr "Howto"]> ∅))]> (
     <["T1" := <["id" := VStr "T1"]> (<["type" := VStr "ticket"]> (
               <["ticket_quality" := VStr "Good"]> ∅))]> ∅)))
    [].

End Demo.

(** ** Vocabulary of the statements *)

(** The chronicle at the [k]-th further attempt of [get_embedding text],
    when every attempt before it failed: each failed attempt left an
    embedding request and a wait. *)
Definition history_of_failures (text : string) (k : nat) (history : list event)
  : list event :=
  Nat.iter k (fun h => EvSleep :: EvEmbed [replace_newlines text] :: h) history.

Definition after_failures (text : string) (k : nat) (w : World) : World :=
  mkWorld (store w) (history_of_failures text k (chronicle w)).

Definition embed_count (evs : list event) : nat :=
  length (List.filter is_embed evs).

(** The events of the vector client: requests and waits. *)
Definition provider_event (ev : event) : Prop :=
  match ev with EvEmbed _ | EvSleep => True | _ => False end.

Definition not_a_read (ev : event) : Prop := is_read ev = false.

(** Observations of a result. *)
Definition returned {A : Type} (r : result A) : bool :=
  match r with inr _ => true | inl _ => false end.

Definition value_of {A : Type} (fallback : A) (r : result A) : A :=
  match r with inr a => a | inl _ => fallback end.

Definition field_of (key : string) (r : result dict) : option value :=
  match r with inr d => d !! key | inl _ => None end.

(** [wp m w Q]: running [m] in [w] ends in a result and a world that
    satisfy [Q]. *)
Definition wp {A : Type} (m : M A) (w : World) (Q : result A -> World -> Prop) : Prop :=
  Q (m w).1 (m w).2.

(** The keys of a stored article. *)
Definition kb_article_keys : gset string :=
  list_to_set ["id"; "type"; "version"; "category"; "title"; "introduction";
               "instructions"; "keywords"; "updated"; "embedding"].

(** [batch_run E kind w rows outs w']: the rows are processed one after the
    other, each in the world the one before it left, and [outs] lists their
    documents in the order of the rows. *)
Inductive batch_run (E : Env) (item_type : string)
  : World -> list row -> list dict -> World -> Prop :=
  | batch_run_nil w : batch_run E item_type w [] [] w
  | batch_run_cons w w1 w2 item rows doc outs :
      process_item E item_type item w = (inr doc, w1) ->
      batch_run E item_type w1 rows outs w2 ->
      batch_run E item_type w (item :: rows) (doc :: outs) w2.

(** What a run of [process_ticket] from [w0] must satisfy: it read nothing
    from the store, and a returned document is filed under the tracking
    index of the row, an underscore and a time stamp read during the run,
    joined in this order. *)
Definition ticket_post (ticket : row) (w0 : World) (r : result dict) (w' : World) : Prop :=
  exists evs,
    performed w0 w' evs /\
    Forall not_a_read evs /\
    forall doc, r = inr doc ->
      exists tracking_index stamp,
        ticket !! "tracking_index" = Some tracking_index /\
        doc !! "id" = Some (VStr (tracking_index +:+ "_" +:+ stamp)) /\
        EvNow stamp ∈ evs /\
        store w' = <[tracking_index +:+ "_" +:+ stamp := doc]> (store w0).

(** The method a valid kind sends the rows of a batch through. *)
Definition processes (E : Env) (item_type : string) (ingest : row -> M dict) : Prop :=
  (item_type = "kb_article" /\ ingest = process_kb_article E) \/
  (item_type = "ticket" /\ ingest = process_ticket E).

(** [ingested ingest w rows outs w']: the rows went through [ingest] one
    after the other, each in the world the one before it left; [outs] lists
    in the order of the rows the documents returned, each of which was
    written to the store under its id at its turn. *)
Inductive ingested (ingest : row -> M dict)
  : World -> list row -> list dict -> World -> Prop :=
  | ingested_nil w : ingested ingest w [] [] w
  | ingested_cons w w1 w2 item rows doc outs item_id :
      ingest item w = (inr doc, w1) ->
      doc !! "id" = Some (VStr item_id) ->
      store w1 = <[item_id := doc]> (store w) ->
      ingested ingest w1 rows outs w2 ->
      ingested ingest w (item :: rows) (doc :: outs) w2.

(** A provider like the one of [Demo.env] that refuses one text. *)
Definition refusing (text : string) : Env :=
  mkEnv (fun _ input =>
           match input with
           | [asked] =>
               if String.eqb asked text then Raise (ProviderError 503)
               else Return [Demo.unit_vector]
           | _ => Return (map (fun _ => Demo.unit_vector) input)
           end)
        (clock Demo.env) (store_fault Demo.env) Demo.float_of_str Demo.str_of_float
        (str_of_list Demo.env).

(** The version [process_kb_article] stores for a row whose id is
    [item_id], read off the code: on an update, the ["Version"] of the
    stored record overlaid with the row, plus a tenth; on a creation, the
    ["Version"] of the row. *)
Definition version_post (E : Env) (article : row) (item_id : string)
    (w0 : World) (r : result dict) (w' : World) : Prop :=
  forall doc, r = inr doc ->
    let as_is := doc !! "version" = VStr <$> article !! "Version" in
    match store w0 !! item_id with
    | Some existing =>
        if truthy existing then
          exists old number,
            overlay (VStr <$> article) existing !! "Version" = Some old /\
            py_float E old w0 = (inr number, w0) /\
            doc !! "version" = Some (VStr (str_of_float E (number + (1 # 10))%Q))
        else as_is
    | None => as_is
    end.

(** An event that writes to the store writes a document with the keys of
    an article. *)
Definition writes_article (ev : event) : Prop :=
  match ev with
  | EvUpsert item => dom item = kb_article_keys
  | _ => True
  end.

(** What a run of [process_kb_article] from [w0] must satisfy: whatever it
    sent to the store has exactly the keys of an article; a returned
    document is the one it sent, filed under its id; and a run that raised
    left the store as it was. *)
Definition article_post (w0 : World) (r : result dict) (w' : World) : Prop :=
  exists evs,
    performed w0 w' evs /\
    Forall writes_article evs /\
    (forall doc, r = inr doc ->
       dom doc = kb_article_keys /\
       EvUpsert doc ∈ evs /\
       exists item_id,
         doc !! "id" = Some (VStr item_id) /\
         store w' = <[item_id := doc]> (store w0)) /\
    (forall e, r = inl e -> store w' = store w0).

Definition lacks (attribute : string) (item : dict) : Prop :=
  item !! attribute = None.

Definition count_in_group (attribute group : string) (items : list dict) : nat :=
  length (List.filter (in_group attribute group) items).

(** ** Further code of the repository *)

(** [chunk_list] of [app/utils/utils.py]:
    [[lst[i:i + chunk_size] for i in range(0, len(lst), chunk_size)]]. *)
Definition chunk_list {A : Type} (lst : list A) (chunk_size : Z) : result (list (list A)) :=
  rbind (py_range 0 (Z.of_nat (length lst)) chunk_size) (fun starts =>
  Return (map (fun i => py_slice lst i (i + chunk_size)) starts)).

(** The inputs of the embedding requests among some events, oldest first. *)
Definition requests (evs : list event) : list (list string) :=
  flat_map (fun ev => match ev with EvEmbed input => [input] | _ => [] end) (rev evs).

(** An answer of the provider to a request that [get_embeddings] accepts. *)
Definition answered (E : Env) (request : list string) (answer : list vector) : Prop :=
  answer <> [] /\ exists history, provider E history request = inr answer.

Definition is_sleep (ev : event) : bool :=
  match ev with EvSleep => true | _ => false end.

Definition sleep_count (evs : list event) : nat :=
  length (List.filter is_sleep evs).

Fixpoint has_newline (text : string) : bool :=
  match text with
  | EmptyString => false
  | String c rest => Ascii.eqb c newline || has_newline rest
  end.

(** The text of the embedding request of a ticket. *)
Definition ticket_content (description close_notes summary : string) : string :=
  description +:+ " " +:+ close_notes +:+ " " +:+ summary.

(** What a run of [process_ticket] from [w0] does, read off the code: a
    run that raised left the store as it was; a run that returned read the
    nine required fields from the row, asked for the embedding of the three
    texts joined by spaces, read the clock twice and, as its last effect,
    wrote the document built from them. *)
Definition ticket_spec (E : Env) (ticket : row) (w0 : World)
    (r : result dict) (w' : World) : Prop :=
  match r with
  | inl _ => store w' = store w0
  | inr doc =>
      exists tracking_index description close_notes summary quality proficiency
             impact resolution cause stamp created_at embedding embeds,
        ticket !! "tracking_index" = Some tracking_index /\
        ticket !! "Description" = Some description /\
        ticket !! "Close Notes" = Some close_notes /\
        ticket !! "summarize_ticket" = Some summary /\
        ticket !! "ticket_quality" = Some quality /\
        ticket !! "user_proficiency_level" = Some proficiency /\
        ticket !! "potential_impact" = Some impact /\
        ticket !! "resolution_appropriateness" = Some resolution /\
        ticket !! "potential_root_cause" = Some cause /\
        doc = copy_optional ticket
                (ticket_document (ticket_id tracking_index stamp) tracking_index
                   description close_notes summary quality proficiency impact
                   resolution cause embedding created_at) /\
        chronicle w' =
          EvUpsert doc :: EvNow created_at :: EvNow stamp :: embeds ++ chronicle w0 /\
        Forall provider_event embeds /\
        Forall (fun request =>
                  request = [replace_newlines
                               (ticket_content description close_notes summary)])
               (requests embeds) /\
        (exists history others,
           provider E history
             [replace_newlines (ticket_content description close_notes summary)]
           = inr (embedding :: others)) /\
        store w' = <[ticket_id tracking_index stamp := doc]> (store w0)
  end.

(** The text of the embedding request of an article. *)
Definition article_content (title introduction instructions : string) : string :=
  title +:+ " " +:+ introduction +:+ " " +:+ instructions.

(** What a run of [process_kb_article] does for a row with the id
    [item_id] that the store does not hold: a run that raised left the
    store as it was; a run that returned read the store once, first of
    all, asked for the embedding of title, introduction and instructions
    joined by spaces, read the clock and, as its last effect, wrote the
    document built from the seven fields of the row. *)
Definition article_create_spec (E : Env) (article : row) (item_id : string)
    (w0 : World) (r : result dict) (w' : World) : Prop :=
  match r with
  | inl _ => store w' = store w0
  | inr doc =>
      exists version category title introduction instructions keywords
             updated embedding embeds,
        article !! "Version" = Some version /\
        article !! "Category" = Some category /\
        article !! "Title" = Some title /\
        article !! "Introduction" = Some introduction /\
        article !! "Instructions" = Some instructions /\
        article !! "Keywords" = Some keywords /\
        doc = kb_article_document (VStr item_id) (VStr version) (VStr category)
                (VStr title) (VStr introduction) (VStr instructions)
                (VStr keywords) updated embedding /\
        chronicle w' =
          EvUpsert doc :: EvNow updated :: embeds ++ EvRead item_id :: chronicle w0 /\
        Forall provider_event embeds /\
        Forall (fun request =>
                  request = [replace_newlines
                               (article_content title introduction instructions)])
               (requests embeds) /\
        (exists history others,
           provider E history
             [replace_newlines (article_content title introduction instructions)]
           = inr (embedding :: others)) /\
        store w' = <[item_id := doc]> (store w0)
  end.

(** An environment in which nothing fails: the provider answers every
    request for at least one text with at least one vector, and the store
    has no fault. *)
Definition healthy (E : Env) : Prop :=
  (forall history input,
     input <> [] -> exists v others, provider E history input = inr (v :: others)) /\
  (forall history, store_fault E history = None).

Definition upsert_count (evs : list event) : nat :=
  length (List.filter is_upsert evs).

Definition required_ticket_fields : list string :=
  [ "tracking_index"; "Description"; "Close Notes"; "summarize_ticket";
    "ticket_quality"; "user_proficiency_level"; "potential_impact";
    "resolution_appropriateness"; "potential_root_cause" ].

Definition required_article_fields : list string :=
  [ "KB Article #"; "Version"; "Category"; "Title"; "Introduction";
    "Instructions"; "Keywords" ].

Definition has_fields (fields : list string) (item : row) : Prop :=
  Forall (fun key => is_Some (item !! key)) fields.

(** What a run of [process_kb_article] does to the world, on either path:
    a run that raised left the store as it was; a run that returned read
    the store once, first of all, then asked for the embedding, read the
    clock and, as its last effect, wrote the returned document under the
    id of the row. *)
Definition article_effects (article : row) (w0 : World)
    (r : result dict) (w' : World) : Prop :=
  match r with
  | inl _ => store w' = store w0
  | inr doc =>
      exists item_id updated embeds,
        article !! "KB Article #" = Some item_id /\
        doc !! "id" = Some (VStr item_id) /\
        chronicle w' =
          EvUpsert doc :: EvNow updated :: embeds ++ EvRead item_id :: chronicle w0 /\
        Forall provider_event embeds /\
        store w' = <[item_id := doc]> (store w0)
  end.

(** A run that raised left the store as it was; a run that returned
    changed the entry of the returned document's id, to that document, and
    nothing else. *)
Definition writes_only_result (w0 : World) (r : result dict) (w' : World) : Prop :=
  match r with
  | inl _ => store w' = store w0
  | inr doc =>
      exists item_id,
        doc !! "id" = Some (VStr item_id) /\
        store w' = <[item_id := doc]> (store w0) /\
        exists evs, performed w0 w' evs /\ upsert_count evs = 1%nat
  end.

(** The sum of the counts of a frequency table. *)
Definition table_total (table : gmap string nat) : nat :=
  map_fold (fun _ count total => (count + total)%nat) 0%nat table.

(** *** Retrieval: [search_similar_texts] and [search_similar_items] *)

(** One entry of the list [search_similar_texts] returns. *)
Record text_hit : Type := mkTextHit {
  hit_text : string;
  hit_similarity : float64
}.

(** One entry of the list [search_similar_items] returns. *)
Record item_hit : Type := mkItemHit {
  hit_id : value;
  hit_type : string;
  hit_content : value;
  hit_score : float64
}.

(** [l[idx]] for an index that is not negative. *)
Definition py_index {A : Type} (l : list A) (idx : nat) : result A :=
  match l !! idx with
  | Some a => Return a
  | None => Raise IndexError
  end.

(** [item[key]] *)
Definition subscript (item : dict) (key : string) : result value :=
  match item !! key with
  | Some v => Return v
  | None => Raise (KeyError key)
  end.

(** A list comprehension [[f(x) for x in l]]: the first element that raises
    ends it. *)
Fixpoint comprehension {A B : Type} (f : A -> result B) (l : list A) : result (list B) :=
  match l with
  | [] => Return []
  | x :: rest =>
      rbind (f x) (fun y =>
      rbind (comprehension f rest) (fun ys =>
      Return (y :: ys)))
  end.

(** The loop of [search_similar_texts] over the ranked indices. *)
Fixpoint text_results (sqrt : Q -> Q) (query_embedding : vector) (texts : list string)
    (embeddings : list vector) (similar_indices : list nat) : result (list text_hit) :=
  match similar_indices with
  | [] => Return []
  | idx :: rest =>
      rbind (py_index embeddings idx) (fun embedding =>
      rbind (Similarity.cosine_similarity sqrt query_embedding embedding) (fun similarity =>
      rbind (py_index texts idx) (fun text =>
      rbind (text_results sqrt query_embedding texts embeddings rest) (fun results =>
      Return (mkTextHit text similarity :: results)))))
  end.

Definition search_similar_texts (E : Env) (sqrt : Q -> Q)
    (tim : list float64 -> nat -> nat -> bool) (query : string)
    (texts : list string) (embeddings : list vector) (top_k : Z) : M (list text_hit) :=
  let! query_embedding := get_embedding E query in
  lift (rbind (Similarity.find_most_similar sqrt tim query_embedding embeddings top_k)
          (fun similar_indices =>
           text_results sqrt query_embedding texts embeddings similar_indices)).

(** [item['title'] if item_type == 'kb_article' else item['description']] *)
Definition content_key (item_type : string) : string :=
  if String.eqb item_type "kb_article" then "title" else "description".

(** [cosine_similarity] of the query and a stored ["embedding"]: numpy has
    no product of an array of floats and a string. *)
Definition cosine_similarity_stored (sqrt : Q -> Q) (query_embedding : vector)
    (embedding : value) : result float64 :=
  match embedding with
  | VVec v => Similarity.cosine_similarity sqrt query_embedding v
  | VStr _ => Raise TypeError
  end.

(** [find_most_similar] on the stored embeddings. *)
Definition find_most_similar_stored (sqrt : Q -> Q)
    (tim : list float64 -> nat -> nat -> bool) (query_embedding : vector)
    (embeddings : list value) (top_k : Z) : result (list nat) :=
  rbind (comprehension (cosine_similarity_stored sqrt query_embedding) embeddings)
    (fun similarities => Return (Similarity.rank tim similarities top_k)).

(** The loop of [search_similar_items] over the ranked indices. *)
Fixpoint item_results (sqrt : Q -> Q) (item_type : string) (query_embedding : vector)
    (items : list dict) (similar_indices : list nat) : result (list item_hit) :=
  match similar_indices with
  | [] => Return []
  | idx :: rest =>
      rbind (py_index items idx) (fun item =>
      rbind (subscript item "embedding") (fun embedding =>
      rbind (cosine_similarity_stored sqrt query_embedding embedding) (fun similarity =>
      rbind (subscript item "id") (fun item_id =>
      rbind (subscript item (content_key item_type)) (fun content =>
      rbind (item_results sqrt item_type query_embedding items rest) (fun results =>
      Return (mkItemHit item_id item_type content similarity :: results)))))))
  end.

(** The part of [search_similar_items] after the query embedding and the
    items are there. *)
Definition similar_items (sqrt : Q -> Q) (tim : list float64 -> nat -> nat -> bool)
    (item_type : string) (query_embedding : vector)
    (items : list dict) (top_k : Z) : result (list item_hit) :=
  rbind (comprehension (fun item => subscript item "embedding") items) (fun embeddings =>
  rbind (comprehension (fun item => subscript item (content_key item_type)) items)
    (fun texts =>
  rbind (find_most_similar_stored sqrt tim query_embedding embeddings top_k)
    (fun similar_indices =>
  item_results sqrt item_type query_embedding items similar_indices))).

Definition search_similar_items (E : Env) (sqrt : Q -> Q)
    (tim : list float64 -> nat -> nat -> bool) (query item_type : string)
    (top_k : Z) : M (list item_hit) :=
  let! query_embedding := get_embedding E query in
  let! items := get_items_by_type E item_type in
  lift (similar_items sqrt tim item_type query_embedding items top_k).



(** *** [app/utils/utils.py] *)

(** [truncate_string]; a [str] is the list of its characters. *)
Definition truncate_string (s : list Ascii.ascii) (max_length : Z)
    (suffix : list Ascii.ascii) : list Ascii.ascii :=
  if Z.of_nat (length s) <=? max_length then s
  else Similarity.slice_to s (max_length - Z.of_nat (length suffix)) ++ suffix.

(** The values [safe_get] walks through: what [json.loads] gives. *)
#[warnings="-register-all"]
Inductive json : Type :=
  | JNone
  | JNum (n : Z)
  | JStr (s : string)
  | JList (items : list json)
  | JDict (entries : gmap string json).

(** A key of [safe_get]: a string or an integer. *)
Inductive key : Type :=
  | KStr (name : string)
  | KInt (index : Z).

(** [seq[i]] for a list or a string of length [len]: a negative index
    counts from the end. *)
Definition sequence_position (len : nat) (i : Z) : option nat :=
  if (0 <=? i) && (i <? Z.of_nat len) then Some (Z.to_nat i)
  else if (i <? 0) && (- Z.of_nat len <=? i) then Some (Z.to_nat (Z.of_nat len + i))
  else None.

(** [dct[key]]: a dictionary of strings has no integer key; a list and a
    string take integers only; a number and [None] take nothing. *)
Definition json_getitem (dct : json) (k : key) : result json :=
  match dct, k with
  | JDict entries, KStr name =>
      match entries !! name with
      | Some v => Return v
      | None => Raise (KeyError name)
      end
  | JDict _, KInt i => Raise (KeyError (pretty i))
  | JList items, KInt i =>
      match sequence_position (length items) i with
      | Some n => match items !! n with Some v => Return v | None => Raise IndexError end
      | None => Raise IndexError
      end
  | JStr s, KInt i =>
      match sequence_position (String.length s) i with
      | Some n => Return (JStr (String.substring n 1 s))
      | None => Raise IndexError
      end
  | _, _ => Raise TypeError
  end.

(** [safe_get]: [KeyError] and [TypeError] end the walk with [None]; any
    other exception leaves the function. *)
Fixpoint safe_get (dct : json) (keys : list key) : result json :=
  match keys with
  | [] => Return dct
  | k :: rest =>
      match json_getitem dct k with
      | inr v => safe_get v rest
      | inl (KeyError _) | inl TypeError => Return JNone
      | inl e => Raise e
      end
  end.

(** The value at the end of a path of names through nested dictionaries. *)
Fixpoint descend (dct : json) (names : list string) : option json :=
  match names with
  | [] => Some dct
  | name :: rest =>
      match dct with
      | JDict entries =>
          match entries !! name with
          | Some v => descend v rest
          | None => None
          end
      | _ => None
      end
  end.

(** * Properties *)

(** ** The similarity engine *)

Module SimilarityFacts.
Import Similarity.

(** *** The order of the floats *)

Lemma float_ltb_Finite x y : float_ltb (Finite x) (Finite y) = true <-> (x < y)%Q.
Proof.
  simpl. destruct (Qlt_le_dec x y) as [H|H]; split; intros G; try done.
  exfalso. apply (Qlt_not_le _ _ G H).
Qed.

Lemma float_eqb_Finite x y : float_eqb (Finite x) (Finite y) = true <-> (x == y)%Q.
Proof. apply Qeq_bool_iff. Qed.

Ltac float_order :=
  unfold float_le, float_lt, float_eq in *;
  repeat match goal with
         | a : float64 |- _ => destruct a as [?|[]|]
         end;
  rewrite ?float_ltb_Finite, ?float_eqb_Finite in *;
  repeat match goal with
         | H : float_ltb (Finite _) (Finite _) = true |- _ => apply float_ltb_Finite in H
         | H : float_eqb (Finite _) (Finite _) = true |- _ => apply float_eqb_Finite in H
         | H : _ \/ _ |- _ => destruct H
         end;
  try done; try (simpl in *; congruence);
  try lra; try (left; lra); try (right; lra).

Lemma float_lt_trans a b c : float_lt a b -> float_lt b c -> float_lt a c.
Proof. intros H1 H2. float_order. Qed.

Lemma float_lt_eq a b c : float_lt a b -> float_eq c b -> float_lt a c.
Proof. intros H1 H2. float_order. Qed.

Lemma float_eq_sym a b : float_eq a b -> float_eq b a.
Proof. intros H. float_order. Qed.

Lemma float_eq_le a b : float_eq a b -> float_le b a.
Proof. intros H. right. by apply float_eq_sym. Qed.

(** Among numbers, what is not less is greater or equal. *)
Lemma float_ltb_false a b :
  is_number a = true -> is_number b = true -> float_ltb a b = false -> float_le b a.
Proof.
  intros Ha Hb H.
  destruct a as [x|[]|], b as [y|[]|]; simpl in *; try done;
    try (by left); try (by right).
  destruct (Qlt_le_dec x y) as [G|G]; [done|].
  destruct (Qle_lt_or_eq _ _ G) as [G'|G'].
  - left. by apply float_ltb_Finite.
  - right. by apply float_eqb_Finite.
Qed.


Section Sorting.

Variable cmp : nat -> nat -> bool.

Lemma insert_stable_perm x l : insert_stable cmp x l ≡ₚ x :: l.
Proof.
  induction l as [|y l IH]; simpl; [done|].
  destruct (cmp x y); [done|].
  rewrite IH. apply perm_swap.
Qed.

Lemma sort_stable_rev l :
  sort_stable cmp (rev l) = fold_right (insert_stable cmp) [] l.
Proof.
  unfold sort_stable.
  rewrite <- (fold_left_rev_right (insert_stable cmp)). by rewrite rev_involutive.
Qed.

Lemma fold_insert_perm l : fold_right (insert_stable cmp) [] l ≡ₚ l.
Proof.
  induction l as [|x l IH]; simpl; [done|].
  by rewrite insert_stable_perm, IH.
Qed.

Lemma sort_stable_perm l : sort_stable cmp l ≡ₚ l.
Proof.
  rewrite <- (rev_involutive l) at 1.
  by rewrite sort_stable_rev, fold_insert_perm, <- Permutation_rev.
Qed.

End Sorting.

Lemma StronglySorted_rev_flip {A} (R : relation A) l :
  StronglySorted (flip R) l -> StronglySorted R (rev l).
Proof.
  induction l as [|x l IH]; intros Hl; simpl; [constructor|].
  apply StronglySorted_cons in Hl as [Hx Hl].
  apply StronglySorted_app_2; [|by apply IH|repeat constructor].
  intros y z Hy Hz. apply list_elem_of_singleton in Hz as ->.
  rewrite Forall_forall in Hx. apply Hx.
  by apply list_elem_of_In, in_rev, list_elem_of_In.
Qed.

Lemma seq_increasing start n : StronglySorted Nat.lt (seq start n).
Proof.
  revert start. induction n as [|n IH]; intros start; simpl; [constructor|].
  constructor; [apply IH|].
  apply Forall_forall. intros y Hy.
  apply list_elem_of_In, in_seq in Hy. unfold Nat.lt. lia.
Qed.

(** What [l[:k]] leaves out. *)
Lemma slice_to_split {A} (l : list A) k :
  exists rest, l = slice_to l k ++ rest.
Proof.
  unfold slice_to. destruct (0 <=? k).
  - exists (skipn (Z.to_nat k) l). by rewrite firstn_skipn.
  - exists (skipn (Z.to_nat (Z.of_nat (length l) + k)) l). by rewrite firstn_skipn.
Qed.


Section Ranking.

Variable tim : list float64 -> nat -> nat -> bool.
Variable similarities : list float64.

Let lt := key_lt similarities.
Let before := ranks_before similarities.

(** Whatever the keys are, sorting loses and adds nothing. *)
Lemma list_sort_perm l : list_sort tim similarities l ≡ₚ l.
Proof.
  unfold list_sort.
  destruct (forallb is_number similarities); [apply sort_stable_perm|].
  destruct (nondescending (key_lt similarities) l); [done|apply sort_stable_perm].
Qed.

Lemma sorted_reverse_perm l : sorted_reverse tim similarities l ≡ₚ l.
Proof.
  unfold sorted_reverse. by rewrite <- Permutation_rev, list_sort_perm, <- Permutation_rev.
Qed.

Lemma key_lt_true i j :
  lt i j = true <-> float_lt (similarity_at similarities i) (similarity_at similarities j).
Proof. done. Qed.

Section Numbers.

Hypothesis numbers : forallb is_number similarities = true.

Lemma similarity_at_number i : is_number (similarity_at similarities i) = true.
Proof.
  unfold similarity_at.
  destruct (nth_in_or_default i similarities (Finite 0)) as [Hin| ->]; [|done].
  rewrite forallb_forall in numbers. by apply numbers.
Qed.

Lemma key_lt_false i j :
  lt i j = false -> float_le (similarity_at similarities j) (similarity_at similarities i).
Proof. apply float_ltb_false; apply similarity_at_number. Qed.

(** Inserting an index smaller than all those present keeps the list in
    ascending order of similarity, later indices first among equals. *)
Lemma insert_stable_sorted x l :
  Forall (fun y => (x < y)%nat) l ->
  StronglySorted (flip before) l ->
  StronglySorted (flip before) (insert_stable lt x l).
Proof.
  induction l as [|y l IH]; intros Hx Hl; simpl.
  { repeat constructor. }
  apply Forall_cons in Hx as [Hxy Hx].
  apply StronglySorted_cons in Hl as [Hy Hl].
  destruct (lt x y) eqn:Hlt.
  - apply key_lt_true in Hlt.
    constructor; [by constructor|].
    constructor; [left; exact Hlt|].
    eapply Forall_impl; [exact Hy|].
    intros z [Hz|[Hz _]]; left.
    + by apply (float_lt_trans _ _ _ Hlt).
    + by apply (float_lt_eq _ _ _ Hlt).
  - apply key_lt_false in Hlt.
    constructor; [by apply IH|].
    rewrite insert_stable_perm.
    constructor; [|exact Hy].
    destruct Hlt as [H|H]; [by left|].
    right. split; [by apply float_eq_sym|done].
Qed.

Lemma fold_insert_sorted l :
  StronglySorted Nat.lt l ->
  StronglySorted (flip before) (fold_right (insert_stable lt) [] l).
Proof.
  induction l as [|x l IH]; intros Hl; simpl; [constructor|].
  apply StronglySorted_cons in Hl as [Hx Hl].
  apply insert_stable_sorted; [|by apply IH].
  by rewrite fold_insert_perm.
Qed.

Lemma sorted_reverse_sorted start n :
  StronglySorted before (sorted_reverse tim similarities (seq start n)).
Proof.
  unfold sorted_reverse, list_sort. rewrite numbers. fold lt. rewrite sort_stable_rev.
  apply StronglySorted_rev_flip, fold_insert_sorted, seq_increasing.
Qed.

End Numbers.

(** The ranking is the head of a list of all the indices, which is in the
    order [before] when the similarities are numbers. *)
Lemma rank_spec top_k :
  exists rest,
    (forallb is_number similarities = true ->
     StronglySorted before (rank tim similarities top_k ++ rest)) /\
    rank tim similarities top_k ++ rest ≡ₚ seq 0 (length similarities).
Proof.
  unfold rank.
  destruct (slice_to_split
              (sorted_reverse tim similarities (seq 0 (length similarities))) top_k)
    as [rest Hrest].
  exists rest. rewrite <- Hrest. split.
  - intros numbers. by apply sorted_reverse_sorted.
  - apply sorted_reverse_perm.
Qed.

End Ranking.

Section Cosine.

Variable sqrt : Q -> Q.

Lemma np_dot_aligned a b :
  length a = length b -> np_dot a b = Return (dot_aligned a b).
Proof. intros H. unfold np_dot. by rewrite H, Nat.eqb_refl. Qed.

Lemma np_dot_mismatch a b :
  length a <> length b -> np_dot a b = Raise (ShapeError (length a) (length b)).
Proof.
  intros H. unfold np_dot.
  by destruct (Nat.eqb_spec (length a) (length b)).
Qed.

Lemma similarities_of_total q embs :
  Forall (fun emb => length emb = length q) embs ->
  exists sims, similarities_of sqrt q embs = inr sims.
Proof.
  induction 1 as [|emb embs Hemb _ [sims IH]]; simpl; [by eexists|].
  unfold cosine_similarity. rewrite np_dot_aligned by done. simpl.
  rewrite IH. simpl. by eexists.
Qed.

Lemma similarities_of_each q embs sims :
  similarities_of sqrt q embs = inr sims ->
  Forall2 (fun emb s => cosine_similarity sqrt q emb = inr s) embs sims.
Proof.
  revert sims. induction embs as [|emb embs IH]; intros sims; simpl.
  - intros [= <-]. constructor.
  - destruct (cosine_similarity sqrt q emb) as [e|s] eqn:Hs; simpl; [done|].
    destruct (similarities_of sqrt q embs) as [e|ss]; simpl; [done|].
    intros [= <-]. constructor; [done|by apply IH].
Qed.



End Cosine.

(** C4.  Two vectors of different lengths have no cosine similarity:
    [np.dot] refuses the shapes, and [cosine_similarity] raises that error
    instead of returning a number. *)
Theorem cosine_similarity_dimension_mismatch (sqrt : Q -> Q) (a b : vector) :
  length a <> length b ->
  cosine_similarity sqrt a b = Raise (ShapeError (length a) (length b)).
Proof.
  intros H. unfold cosine_similarity. by rewrite np_dot_mismatch.
Qed.

Lemma cosine_similarity_dimension_mismatch_3_4 :
  cosine_similarity (fun x => x) [1; 2; 3]%Q [1; 2; 3; 4]%Q = Raise (ShapeError 3 4).
Proof.
  apply (cosine_similarity_dimension_mismatch (fun x => x) [1; 2; 3]%Q [1; 2; 3; 4]%Q).
  simpl. lia.
Defined.




End SimilarityFacts.


(** ** The vector client *)

Module EmbeddingFacts.

Section Client.

Variable E : Env.

Lemma get_embedding_attempt_eq text w :
  get_embedding_attempt E text w =
  (match provider E (chronicle w) [replace_newlines text] with
   | inl e => inl e
   | inr [] => inl IndexError
   | inr (embedding :: _) => inr embedding
   end,
   record_event (EvEmbed [replace_newlines text]) w).
Proof.
  unfold get_embedding_attempt, bind, embeddings_create.
  destruct (provider E (chronicle w) [replace_newlines text]) as [e|[|v data]]; done.
Qed.

Lemma after_failures_0 text w : after_failures text 0 w = w.
Proof. by destruct w. Qed.

(** As long as the provider raises, the loop goes on to the next attempt. *)
Lemma retry_after_failures text k n w :
  (forall j, (j < k)%nat -> exists e,
     provider E (history_of_failures text j (chronicle w)) [replace_newlines text] = inl e) ->
  retry (k + n) (get_embedding_attempt E text) w =
  retry n (get_embedding_attempt E text) (after_failures text k w).
Proof.
  revert n. induction k as [|k IH]; intros n Hfail.
  - by rewrite after_failures_0.
  - replace (S k + n)%nat with (k + S n)%nat by lia.
    rewrite IH by (intros j Hj; apply Hfail; lia).
    destruct (Hfail k) as [e He]; [lia|].
    simpl. rewrite get_embedding_attempt_eq. simpl. by rewrite He.
Qed.

Lemma retry_embed_count text further w :
  exists evs,
    performed w (snd (retry further (get_embedding_attempt E text) w)) evs /\
    (1 <= embed_count evs <= S further)%nat.
Proof.
  revert w. induction further as [|n IH]; intros w; simpl;
    rewrite get_embedding_attempt_eq;
    destruct (provider E (chronicle w) [replace_newlines text]) as [e|[|v data]];
    try (exists [EvEmbed [replace_newlines text]];
         split; [reflexivity|unfold embed_count; simpl; lia]).
  all: destruct (IH (record_event EvSleep
                       (record_event (EvEmbed [replace_newlines text]) w)))
         as (evs & Hevs & Hcount);
       exists (evs ++ [EvSleep; EvEmbed [replace_newlines text]]);
       (split; [unfold performed in *; rewrite Hevs; by rewrite <- app_assoc|]);
       unfold embed_count in *; rewrite List.filter_app, length_app; simpl; lia.
Qed.

End Client.

(** C3.  [get_embedding] asks the provider at least once and at most five
    times.  When the provider raises on the first four attempts and answers
    on the fifth, the call returns the embedding of that answer; when it
    raises on five attempts in a row, the call raises [RetryError] around
    the error of the fifth attempt. *)
Theorem get_embedding_five_attempts (E : Env) (text : string) (w : World) :
  let input := [replace_newlines text] in
  let failing k :=
    exists e, provider E (history_of_failures text k (chronicle w)) input = inl e in
  (exists evs,
     performed w (snd (get_embedding E text w)) evs /\
     (1 <= embed_count evs <= 5)%nat) /\
  (forall embedding others,
     (forall k, (k < 4)%nat -> failing k) ->
     provider E (history_of_failures text 4 (chronicle w)) input
       = inr (embedding :: others) ->
     fst (get_embedding E text w) = inr embedding) /\
  (forall last,
     (forall k, (k < 4)%nat -> failing k) ->
     provider E (history_of_failures text 4 (chronicle w)) input = inl last ->
     fst (get_embedding E text w) = inl (RetryError last)).
Proof.
  intros input failing. unfold get_embedding, stop_after_attempt.
  split; [apply retry_embed_count|].
  split; intros; subst input failing; cbv beta in *;
    change (5 - 1)%nat with (4 + 0)%nat;
    rewrite retry_after_failures by assumption;
    simpl; rewrite get_embedding_attempt_eq; simpl.
  - by match goal with H : provider _ _ _ = inr _ |- _ => simpl in H; rewrite H end.
  - by match goal with H : provider _ _ _ = inl _ |- _ => simpl in H; rewrite H end.
Qed.

Lemma get_embedding_five_attempts_flaky :
  fst (get_embedding (Demo.flaky 4) "reset" Demo.empty_world) = inr Demo.unit_vector /\
  fst (get_embedding (Demo.flaky 5) "reset" Demo.empty_world)
    = inl (RetryError (ProviderError 4)).
Proof.
  split.
  - destruct (get_embedding_five_attempts (Demo.flaky 4) "reset" Demo.empty_world)
      as (_ & Hok & _).
    apply (Hok Demo.unit_vector []).
    + intros k Hk. exists (ProviderError k).
      do 4 (destruct k as [|k]; [reflexivity|]). lia.
    + reflexivity.
  - destruct (get_embedding_five_attempts (Demo.flaky 5) "reset" Demo.empty_world)
      as (_ & _ & Hfail).
    apply (Hfail (ProviderError 4)).
    + intros k Hk. exists (ProviderError k).
      do 4 (destruct k as [|k]; [reflexivity|]). lia.
    + reflexivity.
Defined.

(** C10.  With a positive batch size, [get_embedding_batch] of no texts
    returns the empty list and leaves the world as it was: no request is
    sent to the provider. *)
Theorem get_embedding_batch_empty (E : Env) (batch_size : Z) (w : World) :
  0 < batch_size ->
  get_embedding_batch E [] batch_size w = (inr [], w).
Proof.
  intros Hpos. unfold get_embedding_batch, bind, lift, py_range.
  destruct (Z.eqb_spec batch_size 0) as [->|_]; [lia|]. reflexivity.
Qed.

Lemma get_embedding_batch_empty_100 :
  get_embedding_batch Demo.env [] 100 Demo.empty_world = (inr [], Demo.empty_world).
Proof.
  apply (get_embedding_batch_empty Demo.env 100 Demo.empty_world). lia.
Defined.

End EmbeddingFacts.

(** ** Rules for running the effects *)

Module Run.

Lemma returned_value {A} (fallback : A) (r : result A) :
  returned r = true -> r = inr (value_of fallback r).
Proof. by destruct r. Qed.

Lemma field_of_value key r v :
  field_of key r = Some v -> value_of ∅ r !! key = Some v.
Proof. by destruct r. Qed.

Lemma field_of_none key r :
  returned r = true -> field_of key r = None -> value_of ∅ r !! key = None.
Proof. by destruct r. Qed.

Lemma wp_bind {A B} (m : M A) (k : A -> M B) w Q :
  wp m w (fun r w' => match r with
                      | inl e => Q (inl e) w'
                      | inr a => wp (k a) w' Q
                      end) ->
  wp (bind m k) w Q.
Proof. unfold wp, bind. by destruct (m w) as [[e|a] w']. Qed.

Lemma wp_ret {A} (a : A) w Q : Q (inr a) w -> wp (ret a) w Q.
Proof. done. Qed.

Lemma wp_raise {A} e w (Q : result A -> World -> Prop) : Q (inl e) w -> wp (raise e) w Q.
Proof. done. Qed.

Lemma wp_lift {A} (r : result A) w Q : Q r w -> wp (lift r) w Q.
Proof. done. Qed.

Lemma wp_getitem {V} (d : gmap string V) key w Q :
  (forall v, d !! key = Some v -> Q (inr v) w) ->
  (d !! key = None -> Q (inl (KeyError key)) w) ->
  wp (getitem d key) w Q.
Proof.
  intros Hsome Hnone. unfold wp, getitem.
  destruct (d !! key) as [v|]; [by apply Hsome|by apply Hnone].
Qed.

Lemma wp_elim {A} (m : M A) w Q r w' : wp m w Q -> m w = (r, w') -> Q r w'.
Proof. unfold wp. intros H Heq. by rewrite Heq in H. Qed.

Lemma performed_refl w : performed w w [].
Proof. done. Qed.

Lemma performed_record w0 w ev evs :
  performed w0 w evs -> performed w0 (record_event ev w) (ev :: evs).
Proof. unfold performed. simpl. by intros ->. Qed.

Lemma performed_cons w0 w ev evs s :
  performed w0 w evs -> performed w0 (mkWorld s (ev :: chronicle w)) (ev :: evs).
Proof. unfold performed. simpl. by intros ->. Qed.

Lemma performed_trans w0 w1 w2 evs1 evs2 :
  performed w1 w2 evs2 -> performed w0 w1 evs1 -> performed w0 w2 (evs2 ++ evs1).
Proof. unfold performed. intros -> ->. by rewrite app_assoc. Qed.

Section Effects.

Variable E : Env.

Lemma wp_now w Q :
  (forall stamp, Q (inr stamp) (record_event (EvNow stamp) w)) ->
  wp (datetime_now_isoformat E) w Q.
Proof. intros H. apply H. Qed.

Lemma wp_get_item item_id w Q :
  (forall code, Q (inl (CosmosHttpResponseError code)) (record_event (EvRead item_id) w)) ->
  Q (inr (store w !! item_id)) (record_event (EvRead item_id) w) ->
  wp (get_item E item_id) w Q.
Proof.
  intros Hfault Hok. unfold wp, get_item. destruct (store_fault E (chronicle w)); eauto.
Qed.

Lemma wp_upsert_item item w Q :
  (forall code, Q (inl (CosmosHttpResponseError code)) (record_event (EvUpsert item) w)) ->
  (forall item_id,
     item !! "id" = Some (VStr item_id) ->
     Q (inr item) (mkWorld (<[item_id := item]> (store w)) (EvUpsert item :: chronicle w))) ->
  wp (upsert_item E item) w Q.
Proof.
  intros Hfault Hok. unfold wp, upsert_item.
  destruct (store_fault E (chronicle w)); [eauto|].
  destruct (item !! "id") as [[item_id|v]|] eqn:Hid; eauto.
Qed.

Lemma retry_effects text further w :
  exists evs,
    performed w (retry further (get_embedding_attempt E text) w).2 evs /\
    Forall provider_event evs /\
    store (retry further (get_embedding_attempt E text) w).2 = store w.
Proof.
  revert w. induction further as [|n IH]; intros w; simpl;
    rewrite EmbeddingFacts.get_embedding_attempt_eq;
    destruct (provider E (chronicle w) [replace_newlines text]) as [e|[|v data]];
    try (exists [EvEmbed [replace_newlines text]];
         split; [reflexivity|split; [by repeat constructor|done]]).
  all: destruct (IH (record_event EvSleep
                       (record_event (EvEmbed [replace_newlines text]) w)))
         as (evs & Hevs & Hall & Hstore);
       exists (evs ++ [EvSleep; EvEmbed [replace_newlines text]]);
       split; [unfold performed in *; rewrite Hevs; by rewrite <- app_assoc|];
       split; [apply Forall_app; split; [done|by repeat constructor]|done].
Qed.

Lemma wp_get_embedding text w Q :
  (forall r w' evs,
     performed w w' evs -> Forall provider_event evs -> store w' = store w ->
     Q r w') ->
  wp (get_embedding E text) w Q.
Proof.
  intros H. unfold wp, get_embedding.
  destruct (retry_effects text (stop_after_attempt - 1) w) as (evs & He & Ha & Hs).
  eauto.
Qed.

End Effects.

End Run.

(** ** The ingestion pipeline *)

Module IngestionFacts.
Import Run.

Ltac perf :=
  repeat first
    [ apply performed_refl
    | apply performed_record
    | apply performed_cons
    | (eapply performed_trans; [eassumption|]) ].

Ltac all_events :=
  repeat first
    [ apply Forall_nil_2
    | (apply Forall_cons; split; [done|])
    | (apply Forall_app; split)
    | (eapply Forall_impl; [eassumption|intros []; done]) ].

Lemma copy_optional_id ticket doc : copy_optional ticket doc !! "id" = doc !! "id".
Proof.
  unfold copy_optional, optional_fields. simpl.
  repeat match goal with
         | |- context [match ?o with Some _ => _ | None => _ end] => destruct o
         end;
    rewrite ?lookup_insert_ne by done; done.
Qed.

Ltac failed := intros; eexists; split; [perf|split; [all_events|by intros]].

Section Ticket.

Variable E : Env.

Lemma process_ticket_wp ticket w :
  wp (process_ticket E ticket) w (ticket_post ticket w).
Proof.
  unfold process_ticket.
  do 3 (apply wp_bind, wp_getitem; [intros ? ?|failed]).
  apply wp_bind, wp_get_embedding. intros [e|embedding] w1 evs Hevs Hprov Hstore; [failed|].
  apply wp_bind, wp_getitem; [intros tracking_index Hidx|failed].
  apply wp_bind, wp_now. intros stamp.
  do 9 (apply wp_bind, wp_getitem; [intros ? ?|failed]).
  apply wp_bind, wp_now. intros created_at.
  apply wp_bind, wp_upsert_item; [failed|]. intros item_id Hid.
  apply wp_ret.
  eexists. split; [perf|]. split; [all_events|].
  intros doc [= <-].
  rewrite copy_optional_id in Hid. unfold ticket_document in Hid.
  rewrite lookup_insert_eq in Hid. injection Hid as <-.
  exists tracking_index, stamp. split; [done|]. split.
  { rewrite copy_optional_id. unfold ticket_document. by rewrite lookup_insert_eq. }
  split; [set_solver|]. simpl. by rewrite Hstore.
Qed.

End Ticket.

Lemma dom_kb_article_document item_id version category title introduction
    instructions keywords updated embedding :
  dom (kb_article_document item_id version category title introduction
         instructions keywords updated embedding) = kb_article_keys.
Proof.
  unfold kb_article_document, kb_article_keys.
  rewrite !dom_insert_L, dom_empty_L. reflexivity.
Qed.

Ltac article_events :=
  repeat first
    [ apply Forall_nil_2
    | (apply Forall_cons; split; [first [done|apply dom_kb_article_document]|])
    | (apply Forall_app; split)
    | (eapply Forall_impl; [eassumption|intros []; done]) ].

Ltac article_failed :=
  intros; eexists; split; [perf|];
  split; [article_events|];
  split; [by intros|];
  intros; simpl in *; congruence.

Section Article.

Variable E : Env.

Lemma wp_py_float v w Q :
  (forall q, py_float E v w = (inr q, w) -> Q (inr q) w) ->
  (forall e, Q (inl e) w) ->
  wp (py_float E v) w Q.
Proof.
  intros Hok Hfail. unfold wp, py_float.
  destruct v as [s|l] eqn:Hv; [|apply Hfail].
  destruct (float_of_str E s) eqn:Hs; [|apply Hfail].
  apply Hok. unfold py_float. by rewrite Hs.
Qed.

Lemma process_kb_article_wp article w :
  wp (process_kb_article E article) w (article_post w).
Proof.
  unfold process_kb_article.
  apply wp_bind, wp_getitem; [intros item_id Hid|article_failed].
  apply wp_bind, wp_get_item; [article_failed|].
  apply wp_bind.
  destruct (store w !! item_id) as [existing|]; [destruct (truthy existing)|].
  1: apply wp_bind, wp_getitem; [intros old Hold|article_failed];
     apply wp_bind, wp_py_float; [intros number _|article_failed].
  all: apply wp_ret.
  all: do 3 (apply wp_bind, wp_getitem; [intros ? ?|article_failed]).
  all: apply wp_bind, wp_get_embedding;
       intros [e|embedding] w1 evs Hevs Hprov Hstore; [article_failed|].
  all: do 7 (apply wp_bind, wp_getitem; [intros ? ?|article_failed]).
  all: apply wp_bind, wp_now; intros updated.
  all: apply wp_bind, wp_upsert_item; [article_failed|]; intros stored_id Hstored.
  all: apply wp_ret.
  all: eexists; split; [perf|]; split; [article_events|].
  all: split; [|by intros].
  all: intros doc [= <-]; split; [apply dom_kb_article_document|].
  all: split; [by constructor|].
  all: exists stored_id; split; [done|]; simpl; by rewrite Hstore.
Qed.

Lemma kb_article_document_version item_id version category title introduction
    instructions keywords updated embedding :
  kb_article_document item_id version category title introduction
    instructions keywords updated embedding !! "version" = Some version.
Proof.
  unfold kb_article_document.
  rewrite !lookup_insert_ne by done. by rewrite lookup_insert_eq.
Qed.

Lemma py_float_pure v w w0 q :
  py_float E v w = (inr q, w) -> py_float E v w0 = (inr q, w0).
Proof.
  unfold py_float. destruct v as [s|l]; [|done].
  destruct (float_of_str E s); [|done]. by intros [= ->].
Qed.

(** Where the stored version comes from. *)
Lemma process_kb_article_version article item_id w :
  article !! "KB Article #" = Some item_id ->
  wp (process_kb_article E article) w (version_post E article item_id w).
Proof.
  intros Hitem. unfold process_kb_article.
  apply wp_bind, wp_getitem; [intros item_id' Hid|by intros].
  rewrite Hitem in Hid. injection Hid as <-.
  apply wp_bind, wp_get_item; [by intros|].
  apply wp_bind. unfold version_post.
  destruct (store w !! item_id) as [existing|]; [destruct (truthy existing)|].
  1: apply wp_bind, wp_getitem; [intros old Hold|by intros];
     apply wp_bind, wp_py_float; [intros number Hnumber|by intros].
  all: apply wp_ret.
  all: do 3 (apply wp_bind, wp_getitem; [intros ? ?|by intros]).
  all: apply wp_bind, wp_get_embedding;
       intros [e|embedding] w1 evs Hevs Hprov Hstore; [by intros|].
  all: apply wp_bind, wp_getitem; [intros ? ?|by intros].
  all: apply wp_bind, wp_getitem; [intros version Hversion|by intros].
  all: do 5 (apply wp_bind, wp_getitem; [intros ? ?|by intros]).
  all: apply wp_bind, wp_now; intros updated.
  all: apply wp_bind, wp_upsert_item; [by intros|]; intros stored_id Hstored.
  all: apply wp_ret.
  all: intros doc [= <-]; rewrite kb_article_document_version.
  - rewrite lookup_insert_eq in Hversion. injection Hversion as <-.
    exists old, number. split; [done|]. split; [|done].
    by apply (py_float_pure _ (record_event (EvRead item_id) w)).
  - by rewrite lookup_fmap in Hversion.
  - by rewrite lookup_fmap in Hversion.
Qed.

End Article.

(** C7.  [process_ticket] never reads the store.  A ticket it returns has
    as id the tracking index of the row, an underscore and a time stamp
    read from the clock during the call, joined in this order, and is filed
    in the store under that id.  Two rows with the same tracking index
    ingested one after the other get ids of this form; when their time
    stamps differ the ids differ and both documents are in the store
    afterwards. *)
Theorem process_ticket_always_creates
    (E : Env) (ticket1 ticket2 : row) (w w1 w2 : World) (r1 r2 : result dict) :
  process_ticket E ticket1 w = (r1, w1) ->
  process_ticket E ticket2 w1 = (r2, w2) ->
  ticket_post ticket1 w r1 w1 /\
  ticket_post ticket2 w1 r2 w2 /\
  forall doc1 doc2 tracking_index,
    r1 = inr doc1 -> r2 = inr doc2 ->
    ticket1 !! "tracking_index" = Some tracking_index ->
    ticket2 !! "tracking_index" = Some tracking_index ->
    exists stamp1 stamp2,
      doc1 !! "id" = Some (VStr (tracking_index +:+ "_" +:+ stamp1)) /\
      doc2 !! "id" = Some (VStr (tracking_index +:+ "_" +:+ stamp2)) /\
      (stamp1 <> stamp2 ->
       tracking_index +:+ "_" +:+ stamp1 <> tracking_index +:+ "_" +:+ stamp2 /\
       store w2 !! (tracking_index +:+ "_" +:+ stamp1) = Some doc1 /\
       store w2 !! (tracking_index +:+ "_" +:+ stamp2) = Some doc2).
Proof.
  intros Hrun1 Hrun2.
  pose proof (wp_elim _ _ _ _ _ (process_ticket_wp E ticket1 w) Hrun1) as Hpost1.
  pose proof (wp_elim _ _ _ _ _ (process_ticket_wp E ticket2 w1) Hrun2) as Hpost2.
  split; [done|]. split; [done|].
  intros doc1 doc2 idx -> -> Hidx1 Hidx2.
  destruct Hpost1 as (evs1 & _ & _ & Hdoc1).
  destruct Hpost2 as (evs2 & _ & _ & Hdoc2).
  destruct (Hdoc1 doc1 eq_refl) as (idx1 & stamp1 & Hidx1' & Hid1 & _ & Hstore1).
  destruct (Hdoc2 doc2 eq_refl) as (idx2 & stamp2 & Hidx2' & Hid2 & _ & Hstore2).
  rewrite Hidx1 in Hidx1'. injection Hidx1' as <-.
  rewrite Hidx2 in Hidx2'. injection Hidx2' as <-.
  exists stamp1, stamp2. split; [done|]. split; [done|].
  intros Hne.
  assert (idx +:+ "_" +:+ stamp1 <> idx +:+ "_" +:+ stamp2) as Hids.
  { intros Heq. apply Hne.
    apply (inj (String.app idx)) in Heq. by apply (inj (String.app "_")) in Heq. }
  split; [done|]. rewrite Hstore2, Hstore1. split.
  - rewrite lookup_insert_ne by done. by rewrite lookup_insert_eq.
  - by rewrite lookup_insert_eq.
Qed.

Lemma process_ticket_always_creates_twice :
  let run1 := process_ticket Demo.env Demo.ticket1 Demo.empty_world in
  let run2 := process_ticket Demo.env Demo.ticket1 run1.2 in
  exists doc1 doc2,
    run1.1 = inr doc1 /\ run2.1 = inr doc2 /\
    doc1 !! "id" = Some (VStr "T001_T1") /\
    doc2 !! "id" = Some (VStr "T001_T5") /\
    store run2.2 !! "T001_T1" = Some doc1 /\
    store run2.2 !! "T001_T5" = Some doc2.
Proof.
  intros run1 run2.
  destruct (process_ticket_always_creates Demo.env Demo.ticket1 Demo.ticket1
              Demo.empty_world run1.2 run2.2 run1.1 run2.1
              (surjective_pairing _) (surjective_pairing _)) as (_ & _ & Hboth).
  assert (returned run1.1 = true) as H1 by (vm_compute; reflexivity).
  assert (returned run2.1 = true) as H2 by (vm_compute; reflexivity).
  apply (returned_value ∅) in H1. apply (returned_value ∅) in H2.
  exists (value_of ∅ run1.1), (value_of ∅ run2.1).
  split; [exact H1|]. split; [exact H2|].
  destruct (Hboth _ _ "T001" H1 H2) as (stamp1 & stamp2 & Hid1 & Hid2 & Hstored);
    [reflexivity|reflexivity|].
  assert (field_of "id" run1.1 = Some (VStr "T001_T1")) as Hf1 by (vm_compute; reflexivity).
  assert (field_of "id" run2.1 = Some (VStr "T001_T5")) as Hf2 by (vm_compute; reflexivity).
  apply field_of_value in Hf1, Hf2.
  assert (stamp1 = "T1") as ->.
  { rewrite Hf1 in Hid1. injection Hid1 as Hid1. cbv in Hid1. by symmetry. }
  assert (stamp2 = "T5") as ->.
  { rewrite Hf2 in Hid2. injection Hid2 as Hid2. cbv in Hid2. by symmetry. }
  split; [exact Hf1|]. split; [exact Hf2|].
  destruct Hstored as (_ & Hs1 & Hs2); [discriminate|].
  split; [exact Hs1|exact Hs2].
Defined.

(** C9.  Whatever [process_kb_article] sends to the store is a document
    with exactly the keys id, type, version, category, title, introduction,
    instructions, keywords, updated and embedding; the document it returns
    is the one it stored, so no other field of the row or of the record
    stored before is in it. *)
Theorem process_kb_article_exact_keys
    (E : Env) (article : row) (w w' : World) (r : result dict) :
  process_kb_article E article w = (r, w') ->
  exists evs,
    performed w w' evs /\
    (forall item, EvUpsert item ∈ evs -> dom item = kb_article_keys) /\
    (forall doc, r = inr doc ->
       dom doc = kb_article_keys /\
       EvUpsert doc ∈ evs /\
       (exists item_id,
          doc !! "id" = Some (VStr item_id) /\ store w' !! item_id = Some doc) /\
       (forall key, key ∉ kb_article_keys -> doc !! key = None)).
Proof.
  intros Hrun.
  destruct (wp_elim _ _ _ _ _ (process_kb_article_wp E article w) Hrun)
    as (evs & Hevs & Hall & Hdoc & _).
  exists evs. split; [done|]. split.
  - intros item Hin. rewrite Forall_forall in Hall. apply (Hall _ Hin).
  - intros doc ->. destruct (Hdoc doc eq_refl) as (Hdom & Hin & item_id & Hid & Hstore).
    split; [done|]. split; [done|]. split.
    + exists item_id. split; [done|]. by rewrite Hstore, lookup_insert_eq.
    + intros key Hkey. apply not_elem_of_dom. by rewrite Hdom.
Qed.

Lemma process_kb_article_exact_keys_update :
  let w1 := (process_kb_article Demo.env (Demo.kb1 "3.0") Demo.empty_world).2 in
  let run := process_kb_article Demo.env (<["Author" := "me"]> (Demo.kb1 "1.0")) w1 in
  exists doc,
    run.1 = inr doc /\ dom doc = kb_article_keys /\
    doc !! "Author" = None /\ doc !! "Version" = None.
Proof.
  intros w1 run.
  destruct (process_kb_article_exact_keys Demo.env
              (<["Author" := "me"]> (Demo.kb1 "1.0")) w1 run.2 run.1
              (surjective_pairing _))
    as (evs & _ & _ & Hdoc).
  assert (returned run.1 = true) as H by (vm_compute; reflexivity).
  apply (returned_value ∅) in H.
  exists (value_of ∅ run.1). split; [exact H|].
  destruct (Hdoc _ H) as (Hdom & _ & _ & Hother).
  split; [exact Hdom|].
  split; apply Hother; vm_compute; intros Hin; discriminate Hin.
Defined.

(** C1.  The stored version of an update, evaluated: the store holds the
    article KB1 at version 3.0 and the row of the same id carries version
    1.0.  The version written is 1.1, the version of the row plus a tenth;
    the version of the record stored before, 3.0, is not read.  A row whose
    id is not in the store keeps its version as it is. *)
Theorem process_kb_article_update_version :
  let created := process_kb_article Demo.env (Demo.kb1 "3.0") Demo.empty_world in
  let updated := process_kb_article Demo.env (Demo.kb1 "1.0") created.2 in
  field_of "version" created.1 = Some (VStr "3.0") /\
  (store created.2 !! "KB1") ≫= (fun doc => doc !! "version") = Some (VStr "3.0") /\
  field_of "version" updated.1 = Some (VStr "1.1") /\
  (store updated.2 !! "KB1") ≫= (fun doc => doc !! "version") = Some (VStr "1.1").
Proof. vm_compute. repeat split. Qed.

Section Batch.

Variable E : Env.
Variable item_type : string.

Lemma process_rows_acc rows acc w :
  process_rows E rows item_type acc w =
  match process_rows E rows item_type [] w with
  | (inl e, w') => (inl e, w')
  | (inr outs, w') => (inr (acc ++ outs), w')
  end.
Proof.
  revert acc w. induction rows as [|item rows IH]; intros acc w; simpl.
  - unfold ret. by rewrite app_nil_r.
  - unfold bind. destruct (process_item E item_type item w) as [[e|doc] w1]; [done|].
    rewrite (IH (acc ++ [doc])), (IH ([] ++ [doc])).
    destruct (process_rows E rows item_type [] w1) as [[e|outs] w2]; [done|].
    by rewrite <- app_assoc.
Qed.

(** One turn of the loop. *)
Lemma process_dataframe_cons item rows w :
  process_dataframe E (item :: rows) item_type w =
  match process_item E item_type item w with
  | (inl e, w1) => (inl e, w1)
  | (inr doc, w1) =>
      match process_dataframe E rows item_type w1 with
      | (inl e, w2) => (inl e, w2)
      | (inr outs, w2) => (inr (doc :: outs), w2)
      end
  end.
Proof.
  unfold process_dataframe. simpl. unfold bind.
  destruct (process_item E item_type item w) as [[e|doc] w1]; [done|].
  by rewrite process_rows_acc.
Qed.

Lemma process_dataframe_run rows w outs w' :
  process_dataframe E rows item_type w = (inr outs, w') <->
  batch_run E item_type w rows outs w'.
Proof.
  split.
  - revert w outs. induction rows as [|item rows IH]; intros w outs.
    + intros [= <- <-]. constructor.
    + rewrite process_dataframe_cons.
      destruct (process_item E item_type item w) as [[e|doc] w1] eqn:Hitem; [done|].
      destruct (process_dataframe E rows item_type w1) as [[e|outs'] w2] eqn:Hrows; [done|].
      intros [= <- <-]. econstructor; [exact Hitem|by apply IH].
  - induction 1 as [w|w w1 w2 item rows doc outs Hitem _ IH]; [done|].
    by rewrite process_dataframe_cons, Hitem, IH.
Qed.

Lemma batch_run_length w rows outs w' :
  batch_run E item_type w rows outs w' -> length outs = length rows.
Proof. induction 1; simpl; congruence. Qed.

Lemma process_dataframe_stops processed item rest w outs w1 e w2 :
  process_dataframe E processed item_type w = (inr outs, w1) ->
  process_item E item_type item w1 = (inl e, w2) ->
  process_dataframe E (processed ++ item :: rest) item_type w = (inl e, w2).
Proof.
  revert w outs. induction processed as [|first processed IH]; intros w outs Hdone Hitem.
  - injection Hdone as <- <-. simpl. by rewrite process_dataframe_cons, Hitem.
  - simpl. rewrite process_dataframe_cons in *.
    destruct (process_item E item_type first w) as [[e'|doc] w'] eqn:Hfirst; [done|].
    destruct (process_dataframe E processed item_type w') as [[e'|outs'] w''] eqn:Hrows;
      [done|].
    injection Hdone as <- <-. by rewrite (IH _ _ Hrows Hitem).
Qed.

End Batch.

Lemma processes_item E item_type ingest item w :
  processes E item_type ingest -> process_item E item_type item w = ingest item w.
Proof. by intros [[-> ->]|[-> ->]]. Qed.

(** What goes through [process_kb_article] or [process_ticket] and comes
    back was written under its id. *)
Lemma processes_writes E item_type ingest item w doc w1 :
  processes E item_type ingest ->
  ingest item w = (inr doc, w1) ->
  exists item_id, doc !! "id" = Some (VStr item_id) /\ store w1 = <[item_id := doc]> (store w).
Proof.
  intros [[_ ->]|[_ ->]] Hrun.
  - destruct (wp_elim _ _ _ _ _ (process_kb_article_wp E item w) Hrun)
      as (evs & _ & _ & Hdoc & _).
    by destruct (Hdoc doc eq_refl) as (_ & _ & item_id & Hid & Hstore); exists item_id.
  - destruct (wp_elim _ _ _ _ _ (process_ticket_wp E item w) Hrun)
      as (evs & _ & _ & Hdoc).
    destruct (Hdoc doc eq_refl) as (idx & stamp & _ & Hid & _ & Hstore).
    by exists (idx +:+ "_" +:+ stamp).
Qed.

Section Ordered.

Variable E : Env.
Variable item_type : string.
Variable ingest : row -> M dict.
Hypothesis valid : processes E item_type ingest.

Lemma process_dataframe_ingested rows w outs w' :
  process_dataframe E rows item_type w = (inr outs, w') <->
  ingested ingest w rows outs w'.
Proof.
  split.
  - revert w outs. induction rows as [|item rows IH]; intros w outs.
    + intros [= <- <-]. constructor.
    + rewrite process_dataframe_cons, (processes_item E item_type ingest) by done.
      destruct (ingest item w) as [[e|doc] w1] eqn:Hitem; [done|].
      destruct (process_dataframe E rows item_type w1) as [[e|outs'] w2] eqn:Hrows; [done|].
      intros [= <- <-].
      destruct (processes_writes E item_type ingest item w doc w1 valid Hitem)
        as (item_id & Hid & Hstore).
      econstructor; [exact Hitem|exact Hid|exact Hstore|by apply IH].
  - induction 1 as [w|w w1 w2 item rows doc outs item_id Hitem _ _ _ IH]; [done|].
    by rewrite process_dataframe_cons, (processes_item E item_type ingest), Hitem, IH.
Qed.

Lemma ingested_length w rows outs w' :
  ingested ingest w rows outs w' -> length outs = length rows.
Proof. induction 1; simpl; congruence. Qed.

Lemma process_dataframe_first_failure rows w e w' :
  process_dataframe E rows item_type w = (inl e, w') ->
  exists processed item rest outs w1,
    rows = processed ++ item :: rest /\
    ingested ingest w processed outs w1 /\
    ingest item w1 = (inl e, w').
Proof.
  revert w. induction rows as [|item rows IH]; intros w; [done|].
  rewrite process_dataframe_cons, (processes_item E item_type ingest) by done.
  destruct (ingest item w) as [[e'|doc] w1] eqn:Hitem.
  - intros [= <- <-]. exists [], item, rows, [], w. by repeat constructor.
  - destruct (process_dataframe E rows item_type w1) as [[e'|outs'] w2] eqn:Hrows; [|done].
    intros [= <- <-].
    destruct (IH _ Hrows) as (processed & bad & rest & outs & w1' & -> & Hdone & Hbad).
    destruct (processes_writes E item_type ingest item w doc w1 valid Hitem)
      as (item_id & Hid & Hstore).
    exists (item :: processed), bad, rest, (doc :: outs), w1'.
    split; [done|]. split; [|done]. by econstructor.
Qed.

End Ordered.

(** C5.  For a valid kind [process_dataframe] sends the rows through
    [process_kb_article] or [process_ticket] one after the other, each in
    the world the one before it left.  It returns exactly when every row
    does, and then returns, in the order of the rows and one for each row,
    the documents that were written to the store.  When the row behind
    some processed rows raises, the call raises the same exception in the
    world that row left, so no later row is touched; and a call that raises
    does so for a row that raised. *)
Theorem process_dataframe_in_order (E : Env) (item_type : string)
    (ingest : row -> M dict) (df : list row) (w : World) :
  processes E item_type ingest ->
  (forall outs w',
     process_dataframe E df item_type w = (inr outs, w') <->
     ingested ingest w df outs w') /\
  (forall outs w',
     process_dataframe E df item_type w = (inr outs, w') ->
     length outs = length df) /\
  (forall processed item rest outs w1 e w2,
     df = processed ++ item :: rest ->
     ingested ingest w processed outs w1 ->
     ingest item w1 = (inl e, w2) ->
     process_dataframe E df item_type w = (inl e, w2)) /\
  (forall e w',
     process_dataframe E df item_type w = (inl e, w') ->
     exists processed item rest outs w1,
       df = processed ++ item :: rest /\
       ingested ingest w processed outs w1 /\
       ingest item w1 = (inl e, w')).
Proof.
  intros Hvalid. split; [|split; [|split]].
  - intros outs w'. by apply process_dataframe_ingested.
  - intros outs w' Hrun. apply (process_dataframe_ingested E item_type ingest) in Hrun; [|done].
    by apply ingested_length in Hrun.
  - intros processed item rest outs w1 e w2 -> Hdone Hitem.
    apply (process_dataframe_ingested E item_type ingest) in Hdone; [|done].
    apply (process_dataframe_stops E item_type processed item rest w outs w1 e w2 Hdone).
    by rewrite (processes_item E item_type ingest).
  - intros e w'. by apply process_dataframe_first_failure.
Qed.

Lemma process_dataframe_in_order_three_tickets :
  let second := <["Description" := "Printer jam"]> Demo.ticket1 in
  let df := [Demo.ticket1; second; Demo.ticket1] in
  let all := process_dataframe Demo.env df "ticket" Demo.empty_world in
  let first := process_ticket (refusing "Printer jam Reset done Password reset")
                 Demo.ticket1 Demo.empty_world in
  let refused := process_ticket (refusing "Printer jam Reset done Password reset")
                   second first.2 in
  (length (value_of [] all.1) = 3%nat /\
   ingested (process_ticket Demo.env) Demo.empty_world df (value_of [] all.1) all.2) /\
  process_dataframe (refusing "Printer jam Reset done Password reset") df "ticket"
    Demo.empty_world
    = (inl (RetryError (ProviderError 503)), refused.2).
Proof.
  intros second df all first refused.
  destruct (process_dataframe_in_order Demo.env "ticket" (process_ticket Demo.env) df
              Demo.empty_world) as (Hrun & Hlen & _).
  { right. by split. }
  destruct (process_dataframe_in_order (refusing "Printer jam Reset done Password reset")
              "ticket" (process_ticket (refusing "Printer jam Reset done Password reset"))
              df Demo.empty_world) as (_ & _ & Hstop & _).
  { right. by split. }
  assert (returned all.1 = true) as Hall by (vm_compute; reflexivity).
  apply (returned_value []) in Hall.
  assert (all = (inr (value_of [] all.1), all.2)) as Hrun_all.
  { rewrite <- Hall. apply surjective_pairing. }
  split.
  - split; [by apply (Hlen _ all.2)|by apply Hrun].
  - assert (returned first.1 = true) as Hfirst by (vm_compute; reflexivity).
    apply (returned_value ∅) in Hfirst.
    assert (first = (inr (value_of ∅ first.1), first.2)) as Hrun_first.
    { rewrite <- Hfirst. apply surjective_pairing. }
    assert (field_of "id" first.1 = Some (VStr "T001_T1")) as Hid
      by (vm_compute; reflexivity).
    apply field_of_value in Hid.
    apply (Hstop [Demo.ticket1] second [Demo.ticket1] [value_of ∅ first.1] first.2).
    + reflexivity.
    + econstructor; [exact Hrun_first|exact Hid| |constructor].
      destruct (processes_writes (refusing "Printer jam Reset done Password reset")
                  "ticket" _ Demo.ticket1 Demo.empty_world _ _
                  (or_intror (conj eq_refl eq_refl)) Hrun_first)
        as (item_id & Hid' & Hstore).
      rewrite Hid in Hid'. by injection Hid' as <-.
    + assert (refused.1 = inl (RetryError (ProviderError 503))) as Hrefused
        by (vm_compute; reflexivity).
      rewrite <- Hrefused. apply surjective_pairing.
Defined.

(** C6, as the code has it.  With a kind that is neither ["kb_article"]
    nor ["ticket"], [process_dataframe] of a batch with at least one row
    raises [ValueError] at the first row and leaves the world untouched: no
    embedding is asked for and nothing is read from or written to the
    store.  The kind is looked at inside the loop: for the empty batch the
    call returns the empty list. *)
Theorem process_dataframe_invalid_kind (E : Env) (item_type : string)
    (item : row) (rows : list row) (w : World) :
  item_type <> "kb_article" -> item_type <> "ticket" ->
  process_dataframe E (item :: rows) item_type w
    = (inl (ValueError ("Invalid item type: " +:+ item_type)), w) /\
  process_dataframe E [] item_type w = (inr [], w).
Proof.
  intros Hkb Hticket. split; [|done].
  rewrite process_dataframe_cons. unfold process_item.
  destruct (String.eqb_spec item_type "kb_article"); [done|].
  destruct (String.eqb_spec item_type "ticket"); [done|]. done.
Qed.

Lemma process_dataframe_invalid_kind_report :
  process_dataframe Demo.env [Demo.ticket1; Demo.ticket1] "report" Demo.empty_world
    = (inl (ValueError ("Invalid item type: " +:+ "report")), Demo.empty_world) /\
  process_dataframe Demo.env [] "report" Demo.empty_world = (inr [], Demo.empty_world).
Proof.
  apply (process_dataframe_invalid_kind Demo.env "report" Demo.ticket1 [Demo.ticket1]
           Demo.empty_world); discriminate.
Defined.

(** The empty batch with an unknown kind returns: the claim that every
    batch fails is false. *)
Lemma process_dataframe_invalid_kind_empty_returns :
  ~ (forall (df : list row) (item_type : string) (w : World),
       item_type <> "kb_article" -> item_type <> "ticket" ->
       exists e, (process_dataframe Demo.env df item_type w).1 = inl e).
Proof.
  intros Hclaim.
  destruct (Hclaim [] "report" Demo.empty_world) as [e He]; discriminate.
Qed.

End IngestionFacts.

(** ** The statistics *)

Module StatisticsFacts.

Lemma count_in_group_cons attribute group item items :
  count_in_group attribute group (item :: items) =
  (Nat.b2n (in_group attribute group item) + count_in_group attribute group items)%nat.
Proof. unfold count_in_group. simpl. by destruct (in_group attribute group item). Qed.

Lemma tally_lookup attribute item table table' group :
  tally table (group_of attribute item) = inr table' ->
  default 0%nat (table' !! group) =
  (default 0%nat (table !! group) + Nat.b2n (in_group attribute group item))%nat.
Proof.
  unfold tally, in_group. destruct (group_of attribute item) as [k|l]; [|done].
  intros [= <-]. destruct (String.eqb_spec k group) as [->|Hne].
  - rewrite lookup_insert_eq. simpl. lia.
  - rewrite lookup_insert_ne by done. simpl. lia.
Qed.

Lemma tally_hashable table key :
  hashable key = true -> exists table', tally table key = inr table'.
Proof. destruct key; [by eexists|done]. Qed.

Lemma count_articles_spec kb_articles stats0 stats :
  count_articles kb_articles stats0 = inr stats ->
  total_kb_articles stats = total_kb_articles stats0 /\
  total_tickets stats = total_tickets stats0 /\
  ticket_quality_distribution stats = ticket_quality_distribution stats0 /\
  user_proficiency_distribution stats = user_proficiency_distribution stats0 /\
  forall group,
    default 0%nat (kb_article_categories stats !! group) =
    (default 0%nat (kb_article_categories stats0 !! group)
     + count_in_group "category" group kb_articles)%nat.
Proof.
  revert stats0. induction kb_articles as [|article rest IH]; intros stats0; simpl.
  - intros [= <-]. repeat split. intros group. unfold count_in_group. simpl. lia.
  - destruct (tally (kb_article_categories stats0)
                (dict_get article "category" (VStr "Unknown"))) as [e|categories] eqn:Htally;
      simpl; [done|].
    intros Hrest. destruct (IH _ Hrest) as (H1 & H2 & H3 & H4 & Hcount).
    simpl in *. repeat split; try done.
    intros group. rewrite Hcount, count_in_group_cons.
    rewrite (tally_lookup "category" article _ _ group Htally). lia.
Qed.

Lemma count_tickets_spec tickets stats0 stats :
  count_tickets tickets stats0 = inr stats ->
  total_kb_articles stats = total_kb_articles stats0 /\
  total_tickets stats = total_tickets stats0 /\
  kb_article_categories stats = kb_article_categories stats0 /\
  (forall group,
     default 0%nat (ticket_quality_distribution stats !! group) =
     (default 0%nat (ticket_quality_distribution stats0 !! group)
      + count_in_group "ticket_quality" group tickets)%nat) /\
  (forall group,
     default 0%nat (user_proficiency_distribution stats !! group) =
     (default 0%nat (user_proficiency_distribution stats0 !! group)
      + count_in_group "user_proficiency" group tickets)%nat).
Proof.
  revert stats0. induction tickets as [|ticket rest IH]; intros stats0; simpl.
  - intros [= <-]. repeat split; intros group; unfold count_in_group; simpl; lia.
  - destruct (tally (ticket_quality_distribution stats0)
                (dict_get ticket "ticket_quality" (VStr "Unknown")))
      as [e|qualities] eqn:Hquality; simpl; [done|].
    destruct (tally (user_proficiency_distribution stats0)
                (dict_get ticket "user_proficiency" (VStr "Unknown")))
      as [e|proficiencies] eqn:Hproficiency; simpl; [done|].
    intros Hrest. destruct (IH _ Hrest) as (H1 & H2 & H3 & Hq & Hp).
    simpl in *. repeat split; try done; intros group.
    + rewrite Hq, count_in_group_cons.
      rewrite (tally_lookup "ticket_quality" ticket _ _ group Hquality). lia.
    + rewrite Hp, count_in_group_cons.
      rewrite (tally_lookup "user_proficiency" ticket _ _ group Hproficiency). lia.
Qed.

Lemma count_articles_total kb_articles stats0 :
  groupable "category" kb_articles = true ->
  exists stats, count_articles kb_articles stats0 = inr stats.
Proof.
  revert stats0. induction kb_articles as [|article rest IH]; intros stats0; simpl.
  - by eexists.
  - intros [Hkey Hrest]%andb_true_iff.
    destruct (tally_hashable (kb_article_categories stats0) _ Hkey) as [table Htable].
    unfold group_of in Htable. rewrite Htable. simpl. by apply IH.
Qed.

Lemma count_tickets_total tickets stats0 :
  groupable "ticket_quality" tickets = true ->
  groupable "user_proficiency" tickets = true ->
  exists stats, count_tickets tickets stats0 = inr stats.
Proof.
  revert stats0. induction tickets as [|ticket rest IH]; intros stats0; simpl.
  - by eexists.
  - intros [Hq Hqs]%andb_true_iff [Hp Hps]%andb_true_iff.
    destruct (tally_hashable (ticket_quality_distribution stats0) _ Hq) as [tq Htq].
    destruct (tally_hashable (user_proficiency_distribution stats0) _ Hp) as [tp Htp].
    unfold group_of in Htq, Htp. rewrite Htq. simpl. rewrite Htp. simpl. by apply IH.
Qed.

Lemma get_items_by_type_eq E item_type w :
  get_items_by_type E item_type w =
  (match store_fault E (chronicle w) with
   | Some code => inl (CosmosHttpResponseError code)
   | None => inr (stored_of_type item_type w)
   end,
   record_event (EvQuery item_type) w).
Proof. unfold get_items_by_type. by destruct (store_fault E (chronicle w)). Qed.

Lemma get_item_statistics_eq E w :
  store_fault E (chronicle w) = None ->
  store_fault E (EvQuery "kb_article" :: chronicle w) = None ->
  get_item_statistics E w =
  (item_statistics (stored_of_type "kb_article" w) (stored_of_type "ticket" w),
   record_event (EvQuery "ticket") (record_event (EvQuery "kb_article") w)).
Proof.
  intros H1 H2. unfold get_item_statistics, bind.
  rewrite get_items_by_type_eq, H1, get_items_by_type_eq.
  change (chronicle (record_event (EvQuery "kb_article") w))
    with (EvQuery "kb_article" :: chronicle w).
  by rewrite H2.
Qed.

Lemma get_item_statistics_fault E w :
  store_fault E (chronicle w) <> None \/
  store_fault E (EvQuery "kb_article" :: chronicle w) <> None ->
  returned (get_item_statistics E w).1 = false.
Proof.
  unfold get_item_statistics, bind. rewrite get_items_by_type_eq.
  destruct (store_fault E (chronicle w)) as [code|] eqn:H1; [done|].
  rewrite get_items_by_type_eq.
  change (chronicle (record_event (EvQuery "kb_article") w))
    with (EvQuery "kb_article" :: chronicle w).
  destruct (store_fault E (EvQuery "kb_article" :: chronicle w)) as [code|] eqn:H2; [done|].
  by intros [?|?].
Qed.

Lemma lacks_in_unknown attribute item :
  lacks attribute item -> in_group attribute "Unknown" item = true.
Proof.
  unfold lacks, in_group, group_of, dict_get. by intros ->.
Qed.

(** C8.  The tables of [get_item_statistics] count, under every key, the
    stored records of the kind whose grouping attribute is that key, a
    record without the attribute counting under ["Unknown"]: articles by
    category, tickets by ticket_quality and by user_proficiency.  The call
    returns when the store answers both queries and no grouping attribute
    is a list. *)
Theorem get_item_statistics_unknown_group (E : Env) (w : World) :
  let kb_articles := stored_of_type "kb_article" w in
  let tickets := stored_of_type "ticket" w in
  (forall stats w',
     get_item_statistics E w = (inr stats, w') ->
     total_kb_articles stats = length kb_articles /\
     total_tickets stats = length tickets /\
     (forall group,
        default 0%nat (kb_article_categories stats !! group)
          = count_in_group "category" group kb_articles) /\
     (forall group,
        default 0%nat (ticket_quality_distribution stats !! group)
          = count_in_group "ticket_quality" group tickets) /\
     (forall group,
        default 0%nat (user_proficiency_distribution stats !! group)
          = count_in_group "user_proficiency" group tickets)) /\
  (forall attribute item,
     lacks attribute item -> in_group attribute "Unknown" item = true) /\
  (store_fault E (chronicle w) = None ->
   store_fault E (EvQuery "kb_article" :: chronicle w) = None ->
   groupable "category" kb_articles = true ->
   groupable "ticket_quality" tickets = true ->
   groupable "user_proficiency" tickets = true ->
   exists stats w', get_item_statistics E w = (inr stats, w')).
Proof.
  intros kb_articles tickets. split; [|split].
  - intros stats w' Hrun.
    destruct (store_fault E (chronicle w)) as [code|] eqn:Hfault1.
    { pose proof (get_item_statistics_fault E w) as Hfault.
      rewrite Hrun, Hfault1 in Hfault. by discriminate Hfault; left. }
    destruct (store_fault E (EvQuery "kb_article" :: chronicle w)) as [code|] eqn:Hfault2.
    { pose proof (get_item_statistics_fault E w) as Hfault.
      rewrite Hrun, Hfault2 in Hfault. by discriminate Hfault; right. }
    rewrite get_item_statistics_eq in Hrun by done.
    injection Hrun as Hrun _. fold kb_articles tickets in Hrun.
    unfold item_statistics in Hrun.
    destruct (count_articles kb_articles _) as [e|stats1] eqn:Harticles; simpl in Hrun;
      [done|].
    destruct (count_articles_spec _ _ _ Harticles) as (A1 & A2 & A3 & A4 & Acount).
    destruct (count_tickets_spec _ _ _ Hrun) as (T1 & T2 & T3 & Tq & Tp).
    simpl in *. repeat split.
    + congruence.
    + congruence.
    + intros group. by rewrite T3, Acount, lookup_empty.
    + intros group. by rewrite Tq, A3, lookup_empty.
    + intros group. by rewrite Tp, A4, lookup_empty.
  - apply lacks_in_unknown.
  - intros Hfault1 Hfault2 Hcat Hquality Hproficiency.
    rewrite get_item_statistics_eq by done. fold kb_articles tickets.
    unfold item_statistics.
    destruct (count_articles_total kb_articles
                (mkStats (length kb_articles) (length tickets) ∅ ∅ ∅) Hcat)
      as [stats1 Hstats1].
    rewrite Hstats1. simpl.
    destruct (count_tickets_total tickets stats1 Hquality Hproficiency) as [stats Hstats].
    rewrite Hstats. by eexists _, _.
Qed.

Lemma get_item_statistics_unknown_group_mixed :
  exists stats w',
    get_item_statistics Demo.env Demo.mixed_world = (inr stats, w') /\
    default 0%nat (kb_article_categories stats !! "Unknown") = 1%nat /\
    default 0%nat (user_proficiency_distribution stats !! "Unknown") = 1%nat /\
    default 0%nat (ticket_quality_distribution stats !! "Unknown") = 0%nat.
Proof.
  destruct (get_item_statistics_unknown_group Demo.env Demo.mixed_world)
    as (Hcount & _ & Hreturns).
  destruct Hreturns as (stats & w' & Hrun); try (vm_compute; reflexivity).
  exists stats, w'. split; [exact Hrun|].
  destruct (Hcount stats w' Hrun) as (_ & _ & Hcat & Hquality & Hproficiency).
  rewrite Hcat, Hquality, Hproficiency. vm_compute. repeat split.
Defined.

End StatisticsFacts.

(** * Further properties of the code *)

(** ** More on the similarity engine *)

Module SimilarityMore.
Import Similarity SimilarityFacts.

Lemma dot_aligned_comm a b : (dot_aligned a b == dot_aligned b a)%Q.
Proof.
  revert b. induction a as [|x a IH]; intros [|y b]; simpl; try reflexivity.
  rewrite IH. ring.
Qed.

Lemma float_div_compat x x' y y' :
  (x == x')%Q -> (y == y')%Q -> float_same (float_div x y) (float_div x' y').
Proof.
  intros Hx Hy. unfold float_same, float_div.
  destruct (Qeq_bool y 0) eqn:H0, (Qeq_bool y' 0) eqn:H0'.
  - destruct (Qeq_bool x 0) eqn:Hx0, (Qeq_bool x' 0) eqn:Hx0'; try done.
    + apply Qeq_bool_iff in Hx0. apply Qeq_bool_neq in Hx0'. lra.
    + apply Qeq_bool_iff in Hx0'. apply Qeq_bool_neq in Hx0. lra.
    + unfold float_eq. simpl.
      destruct (Qle_bool 0 x) eqn:Hle, (Qle_bool 0 x') eqn:Hle'; try done.
      * apply Qle_bool_iff in Hle.
        assert (~ (0 <= x')%Q) by (rewrite <- Qle_bool_iff; congruence). lra.
      * apply Qle_bool_iff in Hle'.
        assert (~ (0 <= x)%Q) by (rewrite <- Qle_bool_iff; congruence). lra.
  - apply Qeq_bool_iff in H0. apply Qeq_bool_neq in H0'. lra.
  - apply Qeq_bool_iff in H0'. apply Qeq_bool_neq in H0. lra.
  - apply float_eqb_Finite. by rewrite Hx, Hy.
Qed.

(** [cosine_similarity] is symmetric: with the arguments exchanged it
    raises when it raised, returns NaN when it returned NaN, and returns an
    equal number when it returned a number. *)
Theorem cosine_similarity_symmetric (sqrt : Q -> Q) (a b : vector) :
  match cosine_similarity sqrt a b, cosine_similarity sqrt b a with
  | inr s, inr s' => float_same s s'
  | inl (ShapeError n m), inl (ShapeError m' n') => n = n' /\ m = m'
  | _, _ => False
  end.
Proof.
  unfold cosine_similarity, np_dot.
  destruct (Nat.eqb_spec (length a) (length b)) as [Hlen|Hlen].
  - rewrite <- Hlen, Nat.eqb_refl. simpl.
    apply float_div_compat; [apply dot_aligned_comm|apply Qmult_comm].
  - destruct (Nat.eqb_spec (length b) (length a)) as [Hlen'|_]; [congruence|].
    simpl. done.
Qed.

Lemma sorted_reverse_length tim similarities l :
  length (sorted_reverse tim similarities l) = length l.
Proof. apply Permutation_length, sorted_reverse_perm. Qed.

Lemma rank_length tim similarities top_k :
  length (rank tim similarities top_k) =
  if 0 <=? top_k then Nat.min (Z.to_nat top_k) (length similarities)
  else Z.to_nat (Z.of_nat (length similarities) + top_k).
Proof.
  unfold rank, slice_to.
  destruct (Z.leb_spec 0 top_k); rewrite length_firstn, sorted_reverse_length, length_seq.
  - done.
  - lia.
Qed.

Lemma similarities_of_length sqrt q embs sims :
  similarities_of sqrt q embs = inr sims -> length sims = length embs.
Proof.
  intros H. symmetry. eapply Forall2_length, similarities_of_each, H.
Qed.

(** How many indices [find_most_similar] returns: [top_k] of them, all of
    them when there are fewer candidates, and for a negative [top_k] all
    but the [-top_k] lowest-ranked ones (none when there are not that
    many); in particular nothing for no candidates or [top_k = 0]. *)
Theorem find_most_similar_length (sqrt : Q -> Q)
    (tim : list float64 -> nat -> nat -> bool) (query : vector)
    (embeddings : list vector) (top_k : Z) (out : list nat) :
  find_most_similar sqrt tim query embeddings top_k = inr out ->
  length out =
  if 0 <=? top_k then Nat.min (Z.to_nat top_k) (length embeddings)
  else Z.to_nat (Z.of_nat (length embeddings) + top_k).
Proof.
  unfold find_most_similar.
  destruct (similarities_of sqrt query embeddings) as [e|sims] eqn:Hs; simpl; [done|].
  intros [= <-]. rewrite rank_length. by rewrite (similarities_of_length _ _ _ _ Hs).
Qed.

Lemma find_most_similar_length_negative :
  exists out,
    find_most_similar (fun x => x) (fun _ _ _ => false) [1; 0]%Q
      [[1; 0]; [0; 1]; [1; 1]]%Q (-1) = inr out /\
    length out = 2%nat.
Proof.
  exists (value_of [] (find_most_similar (fun x => x) (fun _ _ _ => false) [1; 0]%Q
                         [[1; 0]; [0; 1]; [1; 1]]%Q (-1))).
  split; [reflexivity|].
  apply (find_most_similar_length (fun x => x) (fun _ _ _ => false) [1; 0]%Q
           [[1; 0]; [0; 1]; [1; 1]]%Q (-1)).
  reflexivity.
Defined.

Lemma similarities_of_mismatch sqrt q before emb after :
  Forall (fun c => length c = length q) before ->
  length emb <> length q ->
  similarities_of sqrt q (before ++ emb :: after)
    = Raise (ShapeError (length q) (length emb)).
Proof.
  intros Hbefore Hemb. induction Hbefore as [|c before Hc _ IH]; simpl.
  - unfold cosine_similarity. rewrite np_dot_mismatch by congruence. done.
  - unfold cosine_similarity at 1. rewrite np_dot_aligned by done. simpl.
    by rewrite IH.
Qed.

(** One candidate of another length than the query makes the whole
    ranking fail: [find_most_similar] raises the shape error of the first
    such candidate, whatever [top_k] is and however many candidates fit. *)
Theorem find_most_similar_mismatch (sqrt : Q -> Q)
    (tim : list float64 -> nat -> nat -> bool) (query : vector)
    (before : list vector) (emb : vector) (after : list vector) (top_k : Z) :
  Forall (fun c => length c = length query) before ->
  length emb <> length query ->
  find_most_similar sqrt tim query (before ++ emb :: after) top_k
    = Raise (ShapeError (length query) (length emb)).
Proof.
  intros Hbefore Hemb. unfold find_most_similar.
  by rewrite similarities_of_mismatch.
Qed.

Lemma find_most_similar_mismatch_second :
  find_most_similar (fun x => x) (fun _ _ _ => false) [1; 0]%Q
    [[1; 0]; [1; 0; 0]; [0; 1]]%Q 0
    = Raise (ShapeError 2 3).
Proof.
  apply (find_most_similar_mismatch (fun x => x) (fun _ _ _ => false) [1; 0]%Q
           [[1; 0]%Q] [1; 0; 0]%Q [[0; 1]%Q] 0).
  - repeat constructor.
  - simpl. lia.
Defined.

(** Asking for more results only appends: for [0 <= k1 <= k2] the ranking
    for [k1] is the beginning of the ranking for [k2]. *)
Theorem rank_prefix (tim : list float64 -> nat -> nat -> bool)
    (similarities : list float64) (k1 k2 : Z) :
  0 <= k1 <= k2 ->
  rank tim similarities k1 = firstn (Z.to_nat k1) (rank tim similarities k2).
Proof.
  intros [H1 H2]. unfold rank, slice_to.
  destruct (Z.leb_spec 0 k1); [|lia]. destruct (Z.leb_spec 0 k2); [|lia].
  rewrite firstn_firstn. f_equal. lia.
Qed.

Lemma rank_prefix_1_3 :
  rank (fun _ _ _ => false) [Finite (1 # 2); Finite (9 # 10); Finite (7 # 10)] 1
  = firstn 1 (rank (fun _ _ _ => false)
                [Finite (1 # 2); Finite (9 # 10); Finite (7 # 10)] 3).
Proof.
  apply (rank_prefix (fun _ _ _ => false)
           [Finite (1 # 2); Finite (9 # 10); Finite (7 # 10)] 1 3).
  lia.
Defined.

End SimilarityMore.

(** ** More on the vector client *)

Module EmbeddingMore.
Import Run.

Lemma replace_newlines_length text :
  String.length (replace_newlines text) = String.length text.
Proof. induction text as [|c text IH]; simpl; congruence. Qed.

Lemma replace_newlines_clean text : has_newline (replace_newlines text) = false.
Proof.
  induction text as [|c text IH]; simpl; [done|].
  rewrite IH, orb_false_r.
  destruct (Ascii.eqb_spec c newline) as [->|Hc]; [done|].
  by apply Ascii.eqb_neq.
Qed.

Lemma replace_newlines_id text :
  has_newline text = false -> replace_newlines text = text.
Proof.
  induction text as [|c text IH]; simpl; [done|].
  intros [Hc Htext]%orb_false_iff. rewrite Hc. f_equal. by apply IH.
Qed.

(** The text [get_embedding] and [get_embeddings] send has the length of
    the text given and no newline in it, and a text without newline is sent
    as it is; so normalising twice changes nothing more. *)
Theorem replace_newlines_normalises (text : string) :
  String.length (replace_newlines text) = String.length text /\
  has_newline (replace_newlines text) = false /\
  (has_newline text = false -> replace_newlines text = text) /\
  replace_newlines (replace_newlines text) = replace_newlines text.
Proof.
  split; [apply replace_newlines_length|].
  split; [apply replace_newlines_clean|].
  split; [apply replace_newlines_id|].
  apply replace_newlines_id, replace_newlines_clean.
Qed.

Lemma replace_newlines_normalises_two_lines :
  replace_newlines "reset" = "reset" /\
  replace_newlines (replace_newlines (String newline "a"))
    = replace_newlines (String newline "a").
Proof.
  destruct (replace_newlines_normalises "reset") as (_ & _ & Hid & _).
  destruct (replace_newlines_normalises (String newline "a")) as (_ & _ & _ & Hidem).
  split; [apply Hid; reflexivity|exact Hidem].
Defined.

Section Client.

Variable E : Env.

Lemma retry_shape text further w :
  exists evs,
    performed w (retry further (get_embedding_attempt E text) w).2 evs /\
    Forall (fun r => r = [replace_newlines text]) (requests evs) /\
    embed_count evs = S (sleep_count evs) /\
    (sleep_count evs <= further)%nat /\
    (returned (retry further (get_embedding_attempt E text) w).1 = false ->
     sleep_count evs = further).
Proof.
  revert w. induction further as [|n IH]; intros w; simpl;
    rewrite EmbeddingFacts.get_embedding_attempt_eq;
    destruct (provider E (chronicle w) [replace_newlines text]) as [e|[|v data]];
    try (exists [EvEmbed [replace_newlines text]];
         split; [reflexivity|];
         split; [by repeat constructor|];
         split; [reflexivity|];
         split; [unfold sleep_count; simpl; lia|];
         unfold sleep_count; simpl; first [done|lia|by intros]).
  all: destruct (IH (record_event EvSleep
                       (record_event (EvEmbed [replace_newlines text]) w)))
         as (evs & Hevs & Hreq & Hcount & Hle & Hfail);
       exists (evs ++ [EvSleep; EvEmbed [replace_newlines text]]).
  all: split; [unfold performed in *; rewrite Hevs; by rewrite <- app_assoc|].
  all: split;
       [unfold requests in *; rewrite rev_app_distr; simpl;
        by constructor|].
  all: unfold embed_count, sleep_count in *;
       rewrite !List.filter_app, !length_app; simpl.
  all: split; [lia|]; split; [lia|]; intros Hr; specialize (Hfail Hr); lia.
Qed.

End Client.

(** [get_embedding] sends the same request every time, the normalised text
    alone, and waits only between two attempts: one wait less than
    requests, at most four, and exactly four when it gives up.  It leaves
    the store alone. *)
Theorem get_embedding_waits_between_attempts (E : Env) (text : string) (w : World) :
  let run := get_embedding E text w in
  exists evs,
    performed w run.2 evs /\
    Forall (fun r => r = [replace_newlines text]) (requests evs) /\
    embed_count evs = S (sleep_count evs) /\
    (sleep_count evs <= 4)%nat /\
    (returned run.1 = false -> sleep_count evs = 4%nat) /\
    store run.2 = store w.
Proof.
  intros run. subst run. unfold get_embedding, stop_after_attempt.
  destruct (retry_shape E text (5 - 1) w) as (evs & Hevs & Hreq & Hcount & Hle & Hfail).
  destruct (retry_effects E text (5 - 1) w) as (evs' & _ & _ & Hstore).
  exists evs. repeat split; try done.
Qed.

Lemma get_embedding_waits_between_attempts_flaky :
  exists evs,
    performed Demo.empty_world (get_embedding (Demo.flaky 5) "reset" Demo.empty_world).2 evs /\
    sleep_count evs = 4%nat.
Proof.
  destruct (get_embedding_waits_between_attempts (Demo.flaky 5) "reset" Demo.empty_world)
    as (evs & Hevs & _ & _ & _ & Hfail & _).
  exists evs. split; [exact Hevs|]. apply Hfail. vm_compute. reflexivity.
Defined.

Lemma py_slice_chunk {A} (l : list A) i size :
  0 <= i -> 0 < size ->
  py_slice l i (i + size) = firstn (Z.to_nat size) (skipn (Z.to_nat i) l).
Proof.
  intros Hi Hsize. unfold py_slice.
  destruct (Z.ltb_spec (i + size) 0); [lia|]. do 2 f_equal. lia.
Qed.

Lemma range_from_chunks {A} (l : list A) size fuel i :
  0 < size -> 0 <= i ->
  Z.of_nat (length l) - i <= Z.of_nat fuel ->
  let chunks := map (fun j => py_slice l j (j + size))
                    (range_from fuel i (Z.of_nat (length l)) size) in
  concat chunks = skipn (Z.to_nat i) l /\
  Forall (fun c => (0 < length c <= Z.to_nat size)%nat) chunks /\
  length chunks = Z.to_nat ((Z.of_nat (length l) - i + size - 1) / size).
Proof.
  intros Hsize. revert i. induction fuel as [|fuel IH]; intros i Hi Hfuel; simpl.
  - split; [|split].
    + rewrite skipn_all2; [done|lia].
    + constructor.
    + assert ((Z.of_nat (length l) - i + size - 1) / size < 1); [|lia].
      apply Z.div_lt_upper_bound; lia.
  - destruct (Z.ltb_spec 0 size); [|lia].
    destruct (Z.ltb_spec i (Z.of_nat (length l))) as [Hlt|Hge]; simpl.
    + destruct (IH (i + size)) as (Hconcat & Hall & Hlen); [lia|lia|].
      rewrite py_slice_chunk by lia. split; [|split].
      * rewrite Hconcat.
        replace (Z.to_nat (i + size)) with (Z.to_nat size + Z.to_nat i)%nat by lia.
        rewrite <- skipn_skipn. apply firstn_skipn.
      * constructor; [|done].
        rewrite length_firstn, length_skipn. lia.
      * rewrite Hlen.
        replace (Z.of_nat (length l) - i + size - 1)
          with ((Z.of_nat (length l) - (i + size) + size - 1) + 1 * size) by lia.
        rewrite Z.div_add by lia.
        assert (0 <= (Z.of_nat (length l) - (i + size) + size - 1) / size)
          by (apply Z.div_pos; lia).
        lia.
    + split; [|split].
      * rewrite skipn_all2; [done|lia].
      * constructor.
      * assert ((Z.of_nat (length l) - i + size - 1) / size < 1); [|lia].
        apply Z.div_lt_upper_bound; lia.
Qed.

Lemma py_range_positive n size :
  0 < size ->
  py_range 0 (Z.of_nat n) size = Return (range_from n 0 (Z.of_nat n) size).
Proof.
  intros Hsize. unfold py_range. destruct (Z.eqb_spec size 0); [lia|].
  do 2 f_equal. lia.
Qed.

(** [chunk_list] with a positive size loses and reorders nothing: the
    chunks put end to end are the list, no chunk is empty or longer than
    the size, and there are [ceil (len / size)] of them. *)
Theorem chunk_list_covers {A : Type} (lst : list A) (chunk_size : Z) :
  0 < chunk_size ->
  exists chunks,
    chunk_list lst chunk_size = inr chunks /\
    concat chunks = lst /\
    Forall (fun c => (0 < length c <= Z.to_nat chunk_size)%nat) chunks /\
    length chunks = Z.to_nat ((Z.of_nat (length lst) + chunk_size - 1) / chunk_size).
Proof.
  intros Hsize. unfold chunk_list. rewrite py_range_positive by done. simpl.
  eexists. split; [reflexivity|].
  destruct (range_from_chunks lst chunk_size (length lst) 0) as (Hconcat & Hall & Hlen);
    [lia..|].
  split; [exact Hconcat|]. split; [exact Hall|].
  rewrite Hlen. do 2 f_equal. lia.
Qed.

Lemma chunk_list_covers_10_3 :
  exists chunks,
    chunk_list (seq 0 10) 3 = inr chunks /\ concat chunks = seq 0 10 /\
    length chunks = 4%nat.
Proof.
  destruct (chunk_list_covers (seq 0 10) 3) as (chunks & Hrun & Hconcat & _ & Hlen); [lia|].
  exists chunks. split; [exact Hrun|]. split; [exact Hconcat|]. exact Hlen.
Defined.

Lemma py_range_negative n size :
  size < 0 -> py_range 0 (Z.of_nat n) size = Return [].
Proof.
  intros Hsize. unfold py_range. destruct (Z.eqb_spec size 0); [lia|].
  f_equal. destruct (Z.abs_nat (Z.of_nat n - 0)); [done|]. simpl.
  destruct (Z.ltb_spec 0 size); [lia|].
  by destruct (Z.ltb_spec (Z.of_nat n) 0); [lia|].
Qed.

(** [chunk_list] with size 0 raises the [ValueError] of [range]; with a
    negative size it returns no chunk at all, whatever the list holds. *)
Theorem chunk_list_bad_size {A : Type} (lst : list A) (chunk_size : Z) :
  (chunk_size = 0 ->
   chunk_list lst chunk_size = Raise (ValueError "range() arg 3 must not be zero")) /\
  (chunk_size < 0 -> chunk_list lst chunk_size = Return []).
Proof.
  split.
  - intros ->. reflexivity.
  - intros Hneg. unfold chunk_list. by rewrite py_range_negative.
Qed.

Lemma chunk_list_bad_size_minus_2 :
  chunk_list [1; 2; 3] (-2) = Return [].
Proof. apply (chunk_list_bad_size [1; 2; 3] (-2)). lia. Defined.

Lemma py_slice_map {A B} (f : A -> B) (l : list A) i j :
  py_slice (map f l) i j = map f (py_slice l i j).
Proof. unfold py_slice. by rewrite length_map, skipn_map, firstn_map. Qed.

Lemma requests_app evs1 evs2 : requests (evs1 ++ evs2) = requests evs2 ++ requests evs1.
Proof. unfold requests. by rewrite rev_app_distr, flat_map_app. Qed.

Section Batches.

Variable E : Env.

Lemma get_embeddings_eq texts w :
  get_embeddings E texts w =
  (match provider E (chronicle w) (map replace_newlines texts) with
   | inl e => inl e
   | inr [] => inl IndexError
   | inr (v :: data) => inr (v :: data)
   end,
   record_event (EvEmbed (map replace_newlines texts)) w).
Proof.
  unfold get_embeddings, bind, embeddings_create.
  destruct (provider E (chronicle w) (map replace_newlines texts)) as [e|[|v data]]; done.
Qed.

Lemma embed_batches_spec texts size starts acc w :
  let run := embed_batches E texts size starts acc w in
  let chunks := map (fun i => map replace_newlines (py_slice texts i (i + size))) starts in
  exists evs,
    performed w run.2 evs /\
    Forall (fun ev => is_embed ev = true) evs /\
    store run.2 = store w /\
    requests evs `prefix_of` chunks /\
    (forall out, run.1 = inr out ->
       requests evs = chunks /\
       exists answers, Forall2 (answered E) chunks answers /\ out = acc ++ concat answers) /\
    (forall e, run.1 = inl e ->
       e = IndexError \/ exists history input, provider E history input = inl e).
Proof.
  revert acc w. induction starts as [|i starts IH]; intros acc w; simpl.
  - exists []. split; [done|]. split; [done|]. split; [done|]. split; [done|].
    split; [|done]. intros out [= <-]. split; [done|].
    exists []. split; [constructor|]. by rewrite app_nil_r.
  - unfold bind. rewrite get_embeddings_eq.
    set (chunk := map replace_newlines (py_slice texts i (i + size))).
    destruct (provider E (chronicle w) chunk) as [e|[|v data]] eqn:Hanswer.
    + exists [EvEmbed chunk]. split; [done|]. split; [by repeat constructor|].
      split; [done|]. split; [by eexists|]. split; [done|].
      intros e' [= <-]. right. eauto.
    + exists [EvEmbed chunk]. split; [done|]. split; [by repeat constructor|].
      split; [done|]. split; [by eexists|]. split; [done|].
      intros e' [= <-]. by left.
    + destruct (IH (acc ++ v :: data) (record_event (EvEmbed chunk) w))
        as (evs & Hevs & Hall & Hstore & Hprefix & Hok & Hfail).
      exists (evs ++ [EvEmbed chunk]).
      split; [unfold performed in *; rewrite Hevs; by rewrite <- app_assoc|].
      split; [apply Forall_app; split; [done|by repeat constructor]|].
      split; [done|].
      rewrite requests_app. simpl.
      split; [by apply prefix_cons|].
      split; [|done].
      intros out Hout. destruct (Hok out Hout) as (Hreq & answers & Hanswers & ->).
      split; [by rewrite Hreq|].
      exists ((v :: data) :: answers). split.
      * constructor; [|done]. split; [done|]. eauto.
      * simpl. by rewrite <- app_assoc.
Qed.

End Batches.

(** With a positive batch size, [get_embedding_batch] asks the provider for
    the chunks of the normalised texts, one request a chunk, in order, and
    stops at the first request that fails: no wait, no second attempt, and
    the exception is the provider's own (or the [IndexError] of an empty
    answer).  When it returns, every chunk was asked for and the result is
    the answers put end to end.  The store is not touched. *)
Theorem get_embedding_batch_chunks (E : Env) (texts : list string) (batch_size : Z)
    (w : World) :
  0 < batch_size ->
  let run := get_embedding_batch E texts batch_size w in
  exists chunks evs,
    chunk_list (map replace_newlines texts) batch_size = inr chunks /\
    performed w run.2 evs /\
    Forall (fun ev => is_embed ev = true) evs /\
    store run.2 = store w /\
    requests evs `prefix_of` chunks /\
    (forall out, run.1 = inr out ->
       requests evs = chunks /\
       exists answers, Forall2 (answered E) chunks answers /\ out = concat answers) /\
    (forall e, run.1 = inl e ->
       e = IndexError \/ exists history input, provider E history input = inl e).
Proof.
  intros Hsize run. subst run.
  unfold get_embedding_batch, bind, lift, chunk_list.
  rewrite !py_range_positive by done. simpl.
  eexists.
  destruct (embed_batches_spec E texts batch_size
              (range_from (length texts) 0 (Z.of_nat (length texts)) batch_size) [] w)
    as (evs & Hevs & Hall & Hstore & Hprefix & Hok & Hfail).
  exists evs. split; [reflexivity|].
  rewrite length_map.
  rewrite (map_ext (fun i => py_slice (map replace_newlines texts) i (i + batch_size))
             (fun i => map replace_newlines (py_slice texts i (i + batch_size))))
    by (intros; apply py_slice_map).
  repeat split; try done.
  - by destruct (Hok out H) as (? & _).
  - by destruct (Hok out H) as (_ & ?).
Qed.

Lemma get_embedding_batch_chunks_3_2 :
  let run := get_embedding_batch Demo.env ["a"; "b"; "c"] 2 Demo.empty_world in
  exists evs,
    performed Demo.empty_world run.2 evs /\
    requests evs = [["a"; "b"]; ["c"]] /\
    length (value_of [] run.1) = 3%nat.
Proof.
  intros run.
  destruct (get_embedding_batch_chunks Demo.env ["a"; "b"; "c"] 2 Demo.empty_world)
    as (chunks & evs & Hchunks & Hevs & _ & _ & _ & Hok & _); [lia|].
  exists evs. split; [exact Hevs|].
  injection Hchunks as <-.
  destruct (Hok (value_of [] run.1)) as (Hreq & _); [reflexivity|].
  split; [exact Hreq|reflexivity].
Defined.

(** A batch size of 0 makes [get_embedding_batch] raise the [ValueError] of
    [range]; a negative one makes it return the empty list, for any texts.
    Neither sends a request. *)
Theorem get_embedding_batch_bad_size (E : Env) (texts : list string) (batch_size : Z)
    (w : World) :
  (batch_size = 0 ->
   get_embedding_batch E texts batch_size w
     = (inl (ValueError "range() arg 3 must not be zero"), w)) /\
  (batch_size < 0 -> get_embedding_batch E texts batch_size w = (inr [], w)).
Proof.
  split.
  - intros ->. reflexivity.
  - intros Hneg. unfold get_embedding_batch, bind, lift.
    by rewrite py_range_negative.
Qed.

Lemma get_embedding_batch_bad_size_minus_1 :
  get_embedding_batch Demo.env ["a"; "b"; "c"] (-1) Demo.empty_world
    = (inr [], Demo.empty_world).
Proof.
  apply (get_embedding_batch_bad_size Demo.env ["a"; "b"; "c"] (-1) Demo.empty_world). lia.
Defined.

End EmbeddingMore.

(** ** More on the ingestion pipeline *)

Module IngestionMore.
Import Run IngestionFacts.

Section Client.

Variable E : Env.

Lemma retry_answer text further w v :
  (retry further (get_embedding_attempt E text) w).1 = inr v ->
  exists history others, provider E history [replace_newlines text] = inr (v :: others).
Proof.
  revert w. induction further as [|n IH]; intros w; simpl;
    rewrite EmbeddingFacts.get_embedding_attempt_eq;
    destruct (provider E (chronicle w) [replace_newlines text]) as [e|[|v' data]] eqn:Hp;
    simpl; try done; try (intros [= <-]; by eauto); apply IH.
Qed.

Lemma wp_get_embedding_full text w Q :
  (forall r w' evs,
     performed w w' evs -> Forall provider_event evs ->
     Forall (fun request => request = [replace_newlines text]) (requests evs) ->
     (1 <= embed_count evs)%nat ->
     store w' = store w ->
     (forall v, r = inr v ->
        exists history others,
          provider E history [replace_newlines text] = inr (v :: others)) ->
     Q r w') ->
  wp (get_embedding E text) w Q.
Proof.
  intros H. unfold wp, get_embedding.
  destruct (retry_effects E text (stop_after_attempt - 1) w) as (evs & He & Ha & Hs).
  destruct (EmbeddingMore.retry_shape E text (stop_after_attempt - 1) w)
    as (evs' & He' & Hreq & Hcount & _).
  assert (evs' = evs) as ->.
  { unfold performed in *. rewrite He in He'. by apply app_inv_tail in He'. }
  apply (H _ _ evs); try done; [lia|].
  intros v Hv. by apply (retry_answer text (stop_after_attempt - 1) w).
Qed.

End Client.

Ltac spec_failed := intros; simpl in *; congruence.

Section Ticket.

Variable E : Env.

Lemma process_ticket_spec ticket w :
  wp (process_ticket E ticket) w (ticket_spec E ticket w).
Proof.
  unfold process_ticket.
  apply wp_bind, wp_getitem; [intros description Hdescription|spec_failed].
  apply wp_bind, wp_getitem; [intros close_notes Hnotes|spec_failed].
  apply wp_bind, wp_getitem; [intros summary Hsummary|spec_failed].
  apply wp_bind, wp_get_embedding_full.
  intros [e|embedding] w1 embeds Hperformed Hprovider Hrequests _ Hstore Hanswer;
    [spec_failed|].
  apply wp_bind, wp_getitem; [intros tracking_index Htracking|spec_failed].
  apply wp_bind, wp_now. intros stamp.
  apply wp_bind, wp_getitem; [intros tracking_index' Htracking'|spec_failed].
  rewrite Htracking in Htracking'. injection Htracking' as <-.
  apply wp_bind, wp_getitem; [intros description' Hdescription'|spec_failed].
  rewrite Hdescription in Hdescription'. injection Hdescription' as <-.
  apply wp_bind, wp_getitem; [intros close_notes' Hnotes'|spec_failed].
  rewrite Hnotes in Hnotes'. injection Hnotes' as <-.
  apply wp_bind, wp_getitem; [intros summary' Hsummary'|spec_failed].
  rewrite Hsummary in Hsummary'. injection Hsummary' as <-.
  apply wp_bind, wp_getitem; [intros quality Hquality|spec_failed].
  apply wp_bind, wp_getitem; [intros proficiency Hproficiency|spec_failed].
  apply wp_bind, wp_getitem; [intros impact Himpact|spec_failed].
  apply wp_bind, wp_getitem; [intros resolution Hresolution|spec_failed].
  apply wp_bind, wp_getitem; [intros cause Hcause|spec_failed].
  apply wp_bind, wp_now. intros created_at.
  apply wp_bind, wp_upsert_item; [spec_failed|]. intros item_id Hid.
  apply wp_ret.
  rewrite copy_optional_id in Hid. unfold ticket_document in Hid.
  rewrite lookup_insert_eq in Hid. injection Hid as <-.
  exists tracking_index, description, close_notes, summary, quality, proficiency,
    impact, resolution, cause, stamp, created_at, embedding, embeds.
  do 9 (split; [done|]). split; [done|].
  split; [simpl; by rewrite Hperformed|].
  split; [done|]. split; [done|].
  split; [by apply Hanswer|].
  simpl. by rewrite Hstore.
Qed.

End Ticket.

(** [process_ticket], run: when it raises, the store is as before; when it
    returns, the row had the nine required fields, the only request sent
    (as often as attempted) was for description, close notes and summary
    joined by single spaces, the clock was read twice after that, and the
    last effect was the write of the returned document, which is built
    from the row, the answer of the provider and the two time stamps. *)
Theorem process_ticket_run (E : Env) (ticket : row) (w w' : World) (r : result dict) :
  process_ticket E ticket w = (r, w') -> ticket_spec E ticket w r w'.
Proof. intros Hrun. exact (wp_elim _ _ _ _ _ (process_ticket_spec E ticket w) Hrun). Qed.

Lemma process_ticket_run_demo :
  let run := process_ticket Demo.env Demo.ticket1 Demo.empty_world in
  ticket_spec Demo.env Demo.ticket1 Demo.empty_world run.1 run.2.
Proof.
  intros run.
  apply (process_ticket_run Demo.env Demo.ticket1 Demo.empty_world run.2 run.1).
  apply surjective_pairing.
Defined.

Lemma copy_fields_lookup (ticket : row) (fields : list string) (doc : dict) key :
  fold_left (fun acc field =>
               match ticket !! field with
               | Some v => <[field := VStr v]> acc
               | None => acc
               end) fields doc !! key
  = if bool_decide (key ∈ fields)
    then match ticket !! key with Some v => Some (VStr v) | None => doc !! key end
    else doc !! key.
Proof.
  revert doc. induction fields as [|field fields IH]; intros doc; cbn [fold_left].
  - rewrite bool_decide_eq_false_2; [done|]. apply not_elem_of_nil.
  - rewrite IH. destruct (decide (key = field)) as [->|Hne].
    + rewrite (bool_decide_eq_true_2 (field ∈ field :: fields)) by constructor.
      destruct (ticket !! field) as [v|] eqn:Hfield.
      * rewrite lookup_insert_eq. by destruct (bool_decide (field ∈ fields)).
      * by destruct (bool_decide (field ∈ fields)).
    + assert ((match ticket !! field with
               | Some v => <[field := VStr v]> doc
               | None => doc
               end) !! key = doc !! key) as ->.
      { destruct (ticket !! field); [by rewrite lookup_insert_ne|done]. }
      destruct (decide (key ∈ fields)) as [Hin|Hnin].
      * rewrite !bool_decide_eq_true_2; [done|by constructor|done].
      * rewrite !bool_decide_eq_false_2; [done| |done].
        by intros [?|?]%elem_of_cons.
Qed.

Lemma copy_optional_lookup ticket doc key :
  copy_optional ticket doc !! key
  = if bool_decide (key ∈ optional_fields)
    then match ticket !! key with Some v => Some (VStr v) | None => doc !! key end
    else doc !! key.
Proof. apply copy_fields_lookup. Qed.

(** The fields of a stored ticket: each comes from the row, four of them
    under another name; the six explanation fields are there exactly when
    the row has them. *)
Theorem process_ticket_fields (E : Env) (ticket : row) (w w' : World) (doc : dict) :
  process_ticket E ticket w = (inr doc, w') ->
  doc !! "type" = Some (VStr "ticket") /\
  doc !! "tracking_index" = VStr <$> ticket !! "tracking_index" /\
  doc !! "description" = VStr <$> ticket !! "Description" /\
  doc !! "close_notes" = VStr <$> ticket !! "Close Notes" /\
  doc !! "summary" = VStr <$> ticket !! "summarize_ticket" /\
  doc !! "ticket_quality" = VStr <$> ticket !! "ticket_quality" /\
  doc !! "user_proficiency" = VStr <$> ticket !! "user_proficiency_level" /\
  doc !! "potential_impact" = VStr <$> ticket !! "potential_impact" /\
  doc !! "resolution_appropriateness" = VStr <$> ticket !! "resolution_appropriateness" /\
  doc !! "potential_root_cause" = VStr <$> ticket !! "potential_root_cause" /\
  (forall key, key ∈ optional_fields -> doc !! key = VStr <$> ticket !! key).
Proof.
  intros Hrun. apply (wp_elim _ _ _ _ _ (process_ticket_spec E ticket w)) in Hrun.
  destruct Hrun as (tracking_index & description & close_notes & summary & quality
                    & proficiency & impact & resolution & cause & stamp & created_at
                    & embedding & embeds & -> & -> & -> & -> & -> & -> & -> & -> & ->
                    & -> & _).
  simpl.
  repeat (split; [rewrite copy_optional_lookup;
                  unfold ticket_document; rewrite ?lookup_insert_ne by done;
                  by rewrite lookup_insert_eq|]).
  intros key Hkey. rewrite copy_optional_lookup, bool_decide_eq_true_2 by done.
  destruct (ticket !! key) as [v|]; [done|]. simpl.
  unfold ticket_document, optional_fields in *.
  repeat (apply elem_of_cons in Hkey as [->|Hkey]; [by vm_compute|]).
  by apply not_elem_of_nil in Hkey.
Qed.

Lemma process_ticket_fields_demo :
  let run := process_ticket Demo.env (<["ticket_quality_explanation" := "clear"]> Demo.ticket1)
               Demo.empty_world in
  exists doc,
    run.1 = inr doc /\
    doc !! "user_proficiency" = Some (VStr "Beginner") /\
    doc !! "ticket_quality_explanation" = Some (VStr "clear") /\
    doc !! "potential_impact_explanation" = None.
Proof.
  intros run.
  assert (returned run.1 = true) as H by (vm_compute; reflexivity).
  apply (returned_value ∅) in H.
  exists (value_of ∅ run.1). split; [exact H|].
  destruct (process_ticket_fields Demo.env
              (<["ticket_quality_explanation" := "clear"]> Demo.ticket1)
              Demo.empty_world run.2 (value_of ∅ run.1))
    as (_ & _ & _ & _ & _ & _ & Hproficiency & _ & _ & _ & Hoptional).
  { rewrite <- H. apply surjective_pairing. }
  split; [rewrite Hproficiency; vm_compute; reflexivity|].
  split.
  - rewrite Hoptional; [vm_compute; reflexivity|].
    unfold optional_fields. repeat constructor.
  - rewrite Hoptional; [vm_compute; reflexivity|].
    unfold optional_fields. repeat constructor.
Defined.

Lemma wp_getitem_row (article : row) key w (Q : result value -> World -> Prop) :
  (forall s, article !! key = Some s -> Q (inr (VStr s)) w) ->
  (article !! key = None -> Q (inl (KeyError key)) w) ->
  wp (getitem (VStr <$> article) key) w Q.
Proof.
  intros Hsome Hnone. apply wp_getitem.
  - intros v. rewrite lookup_fmap. destruct (article !! key) as [s|]; [|done].
    intros [= <-]. by apply Hsome.
  - rewrite lookup_fmap. destruct (article !! key) as [s|]; [done|].
    intros _. by apply Hnone.
Qed.

Section Article.

Variable E : Env.

Lemma process_kb_article_create_spec article item_id w :
  article !! "KB Article #" = Some item_id ->
  store w !! item_id = None ->
  wp (process_kb_article E article) w (article_create_spec E article item_id w).
Proof.
  intros Hitem Hmissing. unfold process_kb_article.
  apply wp_bind, wp_getitem; [intros item_id' Hitem'|spec_failed].
  rewrite Hitem in Hitem'. injection Hitem' as <-.
  apply wp_bind, wp_get_item; [spec_failed|]. rewrite Hmissing.
  apply wp_bind, wp_ret.
  apply wp_bind, wp_getitem_row; [intros title Htitle|spec_failed].
  apply wp_bind, wp_getitem_row; [intros introduction Hintroduction|spec_failed].
  apply wp_bind, wp_getitem_row; [intros instructions Hinstructions|spec_failed].
  apply wp_bind, wp_get_embedding_full.
  intros [e|embedding] w1 embeds Hperformed Hprovider Hrequests _ Hstore Hanswer;
    [spec_failed|].
  apply wp_bind, wp_getitem_row; [intros item_id' Hitem'|spec_failed].
  rewrite Hitem in Hitem'. injection Hitem' as <-.
  apply wp_bind, wp_getitem_row; [intros version Hversion|spec_failed].
  apply wp_bind, wp_getitem_row; [intros category Hcategory|spec_failed].
  apply wp_bind, wp_getitem_row; [intros title' Htitle'|spec_failed].
  rewrite Htitle in Htitle'. injection Htitle' as <-.
  apply wp_bind, wp_getitem_row; [intros introduction' Hintroduction'|spec_failed].
  rewrite Hintroduction in Hintroduction'. injection Hintroduction' as <-.
  apply wp_bind, wp_getitem_row; [intros instructions' Hinstructions'|spec_failed].
  rewrite Hinstructions in Hinstructions'. injection Hinstructions' as <-.
  apply wp_bind, wp_getitem_row; [intros keywords Hkeywords|spec_failed].
  apply wp_bind, wp_now. intros updated.
  apply wp_bind, wp_upsert_item; [spec_failed|]. intros stored_id Hstored.
  apply wp_ret.
  unfold kb_article_document in Hstored. rewrite lookup_insert_eq in Hstored.
  injection Hstored as <-.
  exists version, category, title, introduction, instructions, keywords,
    updated, embedding, embeds.
  do 6 (split; [done|]). split; [done|].
  split; [simpl; by rewrite Hperformed|].
  split; [done|]. split; [done|].
  split; [by apply Hanswer|].
  simpl. by rewrite Hstore.
Qed.

Lemma process_kb_article_effects article w :
  wp (process_kb_article E article) w (article_effects article w).
Proof.
  unfold process_kb_article.
  apply wp_bind, wp_getitem; [intros item_id Hitem|spec_failed].
  apply wp_bind, wp_get_item; [spec_failed|].
  apply wp_bind.
  assert (forall existing : dict,
            overlay (VStr <$> article) existing !! "KB Article #" = Some (VStr item_id))
    as Hmerged.
  { intros existing. unfold overlay. apply lookup_union_Some_l.
    by rewrite lookup_fmap, Hitem. }
  destruct (store w !! item_id) as [existing|]; [destruct (truthy existing)|].
  1: apply wp_bind, wp_getitem; [intros old Hold|spec_failed];
     apply wp_bind, wp_py_float; [intros number _|spec_failed].
  all: apply wp_ret.
  all: do 3 (apply wp_bind, wp_getitem; [intros ? ?|spec_failed]).
  all: apply wp_bind, wp_get_embedding;
       intros [e|embedding] w1 embeds Hperformed Hprovider Hstore; [spec_failed|].
  all: apply wp_bind, wp_getitem; [intros item_id' Hitem'|spec_failed].
  all: do 6 (apply wp_bind, wp_getitem; [intros ? ?|spec_failed]).
  all: apply wp_bind, wp_now; intros updated.
  all: apply wp_bind, wp_upsert_item; [spec_failed|]; intros stored_id Hstored.
  all: apply wp_ret.
  all: unfold kb_article_document in Hstored; rewrite lookup_insert_eq in Hstored;
       injection Hstored as ->.
  1: rewrite lookup_insert_ne, Hmerged in Hitem' by done.
  2,3: rewrite lookup_fmap, Hitem in Hitem'.
  all: injection Hitem' as <-.
  all: exists item_id, updated, embeds.
  all: split; [done|]; split; [unfold kb_article_document; by rewrite lookup_insert_eq|].
  all: split; [simpl; by rewrite Hperformed|].
  all: split; [done|]; simpl; by rewrite Hstore.
Qed.

End Article.

(** [process_kb_article] for a row whose id the store does not hold: see
    [article_create_spec].  The document written is built from the seven
    fields of the row as they are, the request is for title, introduction
    and instructions joined by single spaces, and the effects are one read,
    the requests, one clock reading and one write, in this order. *)
Theorem process_kb_article_creates (E : Env) (article : row) (item_id : string)
    (w w' : World) (r : result dict) :
  article !! "KB Article #" = Some item_id ->
  store w !! item_id = None ->
  process_kb_article E article w = (r, w') ->
  article_create_spec E article item_id w r w'.
Proof.
  intros Hitem Hmissing Hrun.
  exact (wp_elim _ _ _ _ _ (process_kb_article_create_spec E article item_id w
                              Hitem Hmissing) Hrun).
Qed.

Lemma process_kb_article_creates_demo :
  let run := process_kb_article Demo.env (Demo.kb1 "1.0") Demo.empty_world in
  article_create_spec Demo.env (Demo.kb1 "1.0") "KB1" Demo.empty_world run.1 run.2.
Proof.
  intros run.
  apply (process_kb_article_creates Demo.env (Demo.kb1 "1.0") "KB1" Demo.empty_world
           run.2 run.1).
  - vm_compute. reflexivity.
  - vm_compute. reflexivity.
  - apply surjective_pairing.
Defined.

(** [process_kb_article] on either path: a run that raised wrote nothing; a
    run that returned first read the store for the id of the row, then
    asked for the embedding, then read the clock, and last wrote the
    returned document under that id. *)
Theorem process_kb_article_run (E : Env) (article : row) (w w' : World)
    (r : result dict) :
  process_kb_article E article w = (r, w') -> article_effects article w r w'.
Proof.
  intros Hrun. exact (wp_elim _ _ _ _ _ (process_kb_article_effects E article w) Hrun).
Qed.

Lemma process_kb_article_run_demo :
  let w1 := (process_kb_article Demo.env (Demo.kb1 "3.0") Demo.empty_world).2 in
  let run := process_kb_article Demo.env (Demo.kb1 "1.0") w1 in
  article_effects (Demo.kb1 "1.0") w1 run.1 run.2.
Proof.
  intros w1 run.
  apply (process_kb_article_run Demo.env (Demo.kb1 "1.0") w1 run.2 run.1).
  apply surjective_pairing.
Defined.

Lemma upsert_count_provider evs : Forall provider_event evs -> upsert_count evs = 0%nat.
Proof.
  unfold upsert_count. induction 1 as [|ev evs Hev _ IH]; [done|].
  simpl. by destruct ev.
Qed.

Lemma upsert_count_app evs1 evs2 :
  upsert_count (evs1 ++ evs2) = (upsert_count evs1 + upsert_count evs2)%nat.
Proof. unfold upsert_count. by rewrite List.filter_app, length_app. Qed.

Lemma process_item_writes E item_type item w w' r :
  process_item E item_type item w = (r, w') -> writes_only_result w r w'.
Proof.
  unfold process_item.
  destruct (String.eqb item_type "kb_article").
  { intros Hrun. apply (wp_elim _ _ _ _ _ (process_kb_article_effects E item w)) in Hrun.
    destruct r as [e|doc]; [done|].
    destruct Hrun as (item_id & updated & embeds & _ & Hid & Hchronicle & Hprovider & Hstore).
    exists item_id. split; [done|]. split; [done|].
    exists (EvUpsert doc :: EvNow updated :: embeds ++ [EvRead item_id]). split.
    - unfold performed. rewrite Hchronicle. simpl. by rewrite <- app_assoc.
    - change (upsert_count (EvUpsert doc :: EvNow updated :: embeds ++ [EvRead item_id]))
        with (S (upsert_count (embeds ++ [EvRead item_id]))).
      by rewrite upsert_count_app, upsert_count_provider. }
  destruct (String.eqb item_type "ticket").
  { intros Hrun. apply (wp_elim _ _ _ _ _ (process_ticket_spec E item w)) in Hrun.
    destruct r as [e|doc]; [done|].
    destruct Hrun as (tracking_index & description & close_notes & summary & quality
                      & proficiency & impact & resolution & cause & stamp & created_at
                      & embedding & embeds & _ & _ & _ & _ & _ & _ & _ & _ & _
                      & Hdoc & Hchronicle & Hprovider & _ & _ & Hstore).
    exists (ticket_id tracking_index stamp). split.
    { rewrite Hdoc, copy_optional_id. unfold ticket_document. by rewrite lookup_insert_eq. }
    split; [done|].
    exists (EvUpsert doc :: EvNow created_at :: EvNow stamp :: embeds). split; [done|].
    change (upsert_count (EvUpsert doc :: EvNow created_at :: EvNow stamp :: embeds))
      with (S (upsert_count embeds)).
    by rewrite upsert_count_provider. }
  by intros [= <- <-].
Qed.

Section Batch.

Variable E : Env.
Variable item_type : string.

(** [process_dataframe] of two batches, one after the other, is
    [process_dataframe] of the batches put together. *)
Lemma process_dataframe_app_eq df1 df2 w :
  process_dataframe E (df1 ++ df2) item_type w =
  match process_dataframe E df1 item_type w with
  | (inl e, w1) => (inl e, w1)
  | (inr outs1, w1) =>
      match process_dataframe E df2 item_type w1 with
      | (inl e, w2) => (inl e, w2)
      | (inr outs2, w2) => (inr (outs1 ++ outs2), w2)
      end
  end.
Proof.
  revert w. induction df1 as [|item df1 IH]; intros w.
  - simpl. change (process_dataframe E [] item_type w) with (@inr exn (list dict) [], w).
    by destruct (process_dataframe E df2 item_type w) as [[e|outs2] w2].
  - simpl. rewrite !process_dataframe_cons.
    destruct (process_item E item_type item w) as [[e|doc] w1]; [done|].
    rewrite IH.
    destruct (process_dataframe E df1 item_type w1) as [[e|outs1] w2]; [done|].
    by destruct (process_dataframe E df2 item_type w2) as [[e|outs2] w3].
Qed.

Lemma batch_run_writes w rows outs w' :
  batch_run E item_type w rows outs w' ->
  exists evs,
    performed w w' evs /\ upsert_count evs = length rows /\
    Forall (fun doc => exists item_id,
              doc !! "id" = Some (VStr item_id) /\ item_id ∈ dom (store w')) outs /\
    dom (store w) ⊆ dom (store w').
Proof.
  induction 1 as [w|w w1 w2 item rows doc outs Hitem _ IH].
  - exists []. split; [done|]. split; [done|]. split; [constructor|done].
  - destruct IH as (evs & Hevs & Hcount & Hids & Hdom).
    apply process_item_writes in Hitem.
    destruct Hitem as (item_id & Hid & Hstore & evs1 & Hevs1 & Hcount1).
    exists (evs ++ evs1). split; [exact (performed_trans _ _ _ _ _ Hevs Hevs1)|].
    split; [rewrite upsert_count_app; simpl; lia|].
    assert (dom (store w) ⊆ dom (store w1)) as Hdom1.
    { rewrite Hstore, dom_insert_L. set_solver. }
    split; [|set_solver].
    constructor; [|done].
    exists item_id. split; [done|]. apply Hdom. rewrite Hstore, dom_insert_L. set_solver.
Qed.

End Batch.

(** [process_dataframe] composes: a batch put together from two runs as
    the first batch and then, in the world it left, the second; the first
    failure ends both. *)
Theorem process_dataframe_app (E : Env) (item_type : string) (df1 df2 : list row)
    (w : World) :
  process_dataframe E (df1 ++ df2) item_type w =
  match process_dataframe E df1 item_type w with
  | (inl e, w1) => (inl e, w1)
  | (inr outs1, w1) =>
      match process_dataframe E df2 item_type w1 with
      | (inl e, w2) => (inl e, w2)
      | (inr outs2, w2) => (inr (outs1 ++ outs2), w2)
      end
  end.
Proof. apply process_dataframe_app_eq. Qed.

(** A batch that [process_dataframe] returns was written row by row: as
    many writes as rows, every returned document under its id in the
    store, and no id that was in the store before is gone. *)
Theorem process_dataframe_writes (E : Env) (item_type : string) (df : list row)
    (w w' : World) (outs : list dict) :
  process_dataframe E df item_type w = (inr outs, w') ->
  exists evs,
    performed w w' evs /\
    upsert_count evs = length df /\
    Forall (fun doc => exists item_id,
              doc !! "id" = Some (VStr item_id) /\ item_id ∈ dom (store w')) outs /\
    dom (store w) ⊆ dom (store w').
Proof.
  intros Hrun. apply process_dataframe_run in Hrun. by apply batch_run_writes in Hrun.
Qed.

Lemma process_dataframe_writes_demo :
  let run := process_dataframe Demo.env [Demo.ticket1; Demo.ticket1] "ticket"
               Demo.empty_world in
  exists evs, performed Demo.empty_world run.2 evs /\ upsert_count evs = 2%nat.
Proof.
  intros run.
  assert (returned run.1 = true) as H by (vm_compute; reflexivity).
  apply (returned_value []) in H.
  destruct (process_dataframe_writes Demo.env "ticket" [Demo.ticket1; Demo.ticket1]
              Demo.empty_world run.2 (value_of [] run.1))
    as (evs & Hevs & Hcount & _).
  { rewrite <- H. apply surjective_pairing. }
  exists evs. split; [exact Hevs|exact Hcount].
Defined.

(** No rollback: when a row fails behind rows already processed, the call
    raises with the store as those rows left it; their documents stay
    written. *)
Theorem process_dataframe_keeps_processed (E : Env) (item_type : string)
    (processed : list row) (item : row) (rest : list row)
    (w w1 w2 : World) (outs : list dict) (e : exn) :
  process_dataframe E processed item_type w = (inr outs, w1) ->
  process_item E item_type item w1 = (inl e, w2) ->
  let run := process_dataframe E (processed ++ item :: rest) item_type w in
  run.1 = inl e /\
  store run.2 = store w1 /\
  Forall (fun doc => exists item_id,
            doc !! "id" = Some (VStr item_id) /\ item_id ∈ dom (store run.2)) outs.
Proof.
  intros Hdone Hitem run. subst run.
  rewrite (process_dataframe_stops E item_type processed item rest w outs w1 e w2 Hdone Hitem).
  simpl. split; [done|].
  pose proof (process_item_writes E item_type item w1 w2 (inl e) Hitem) as Hstore.
  simpl in Hstore. split; [done|]. rewrite Hstore.
  apply process_dataframe_run in Hdone.
  by destruct (batch_run_writes E item_type w processed outs w1 Hdone)
    as (_ & _ & _ & Hids & _).
Qed.

Lemma process_dataframe_keeps_processed_demo :
  let E := refusing "Printer jam Reset done Password reset" in
  let second := <["Description" := "Printer jam"]> Demo.ticket1 in
  let first := process_dataframe E [Demo.ticket1] "ticket" Demo.empty_world in
  let run := process_dataframe E ([Demo.ticket1] ++ second :: [Demo.ticket1])
               "ticket" Demo.empty_world in
  run.1 = inl (RetryError (ProviderError 503)) /\ store run.2 = store first.2.
Proof.
  intros E second first run.
  assert (returned first.1 = true) as Hfirst by (vm_compute; reflexivity).
  apply (returned_value []) in Hfirst.
  destruct (process_dataframe_keeps_processed E "ticket" [Demo.ticket1]
              second [Demo.ticket1]
              Demo.empty_world first.2 (process_ticket E second first.2).2
              (value_of [] first.1) (RetryError (ProviderError 503)))
    as (Hraised & Hstore & _).
  - rewrite <- Hfirst. apply surjective_pairing.
  - assert ((process_ticket E second first.2).1 = inl (RetryError (ProviderError 503)))
      as Hrefused by (vm_compute; reflexivity).
    change (process_item E "ticket" second first.2)
      with (process_ticket E second first.2).
    rewrite <- Hrefused. apply surjective_pairing.
  - split; [exact Hraised|exact Hstore].
Defined.

Ltac present Hfields :=
  let Hnone := fresh "Hnone" in
  intros Hnone; exfalso; eapply is_Some_None; rewrite <- Hnone;
  eapply (proj1 (Forall_forall _ _) Hfields); repeat constructor.

Section Healthy.

Variable E : Env.
Hypothesis Hhealthy : healthy E.

Lemma wp_get_embedding_healthy text w Q :
  (forall v, Q (inr v) (record_event (EvEmbed [replace_newlines text]) w)) ->
  wp (get_embedding E text) w Q.
Proof.
  intros H. unfold wp, get_embedding, stop_after_attempt. simpl.
  rewrite EmbeddingFacts.get_embedding_attempt_eq.
  destruct (proj1 Hhealthy (chronicle w) [replace_newlines text]) as (v & others & ->);
    [done|].
  apply H.
Qed.

Lemma wp_get_item_healthy item_id w Q :
  Q (inr (store w !! item_id)) (record_event (EvRead item_id) w) ->
  wp (get_item E item_id) w Q.
Proof. intros H. unfold wp, get_item. by rewrite (proj2 Hhealthy). Qed.

Lemma wp_upsert_item_healthy item item_id w Q :
  item !! "id" = Some (VStr item_id) ->
  Q (inr item) (mkWorld (<[item_id := item]> (store w)) (EvUpsert item :: chronicle w)) ->
  wp (upsert_item E item) w Q.
Proof. intros Hid H. unfold wp, upsert_item. by rewrite (proj2 Hhealthy), Hid. Qed.

Lemma process_ticket_healthy_wp ticket w :
  has_fields required_ticket_fields ticket ->
  wp (process_ticket E ticket) w (fun r w' =>
    exists doc stamp created_at request,
      r = inr doc /\
      chronicle w' =
        [EvUpsert doc; EvNow created_at; EvNow stamp; EvEmbed request] ++ chronicle w).
Proof.
  intros Hfields. unfold process_ticket, has_fields, required_ticket_fields in *.
  do 3 (apply wp_bind, wp_getitem; [intros ? ?|present Hfields]).
  apply wp_bind, wp_get_embedding_healthy. intros embedding.
  apply wp_bind, wp_getitem; [intros tracking_index ?|present Hfields].
  apply wp_bind, wp_now. intros stamp.
  do 9 (apply wp_bind, wp_getitem; [intros ? ?|present Hfields]).
  apply wp_bind, wp_now. intros created_at.
  eapply wp_bind, wp_upsert_item_healthy.
  { rewrite copy_optional_id. unfold ticket_document. by rewrite lookup_insert_eq. }
  apply wp_ret. by eexists _, _, _, _.
Qed.

Lemma process_kb_article_healthy_wp article item_id w :
  has_fields required_article_fields article ->
  article !! "KB Article #" = Some item_id ->
  store w !! item_id = None ->
  wp (process_kb_article E article) w (fun r w' =>
    exists doc updated request,
      r = inr doc /\
      chronicle w' =
        [EvUpsert doc; EvNow updated; EvEmbed request; EvRead item_id] ++ chronicle w).
Proof.
  intros Hfields Hitem Hmissing.
  unfold process_kb_article, has_fields, required_article_fields in *.
  apply wp_bind, wp_getitem; [intros item_id' Hitem'|present Hfields].
  rewrite Hitem in Hitem'. injection Hitem' as <-.
  apply wp_bind, wp_get_item_healthy. rewrite Hmissing.
  apply wp_bind, wp_ret.
  do 3 (apply wp_bind, wp_getitem_row; [intros ? ?|present Hfields]).
  apply wp_bind, wp_get_embedding_healthy. intros embedding.
  apply wp_bind, wp_getitem_row; [intros item_id' Hitem'|present Hfields].
  do 6 (apply wp_bind, wp_getitem_row; [intros ? ?|present Hfields]).
  apply wp_bind, wp_now. intros updated.
  eapply wp_bind, wp_upsert_item_healthy.
  { unfold kb_article_document. by rewrite lookup_insert_eq. }
  rewrite Hitem in Hitem'. injection Hitem' as <-.
  apply wp_ret. by eexists _, _, _.
Qed.

End Healthy.

(** When the provider answers and the store has no fault, a row with the
    nine required fields of a ticket is stored: [process_ticket] returns
    after one request, two clock readings and one write, and nothing
    else. *)
Theorem process_ticket_returns (E : Env) (ticket : row) (w : World) :
  healthy E ->
  has_fields required_ticket_fields ticket ->
  let run := process_ticket E ticket w in
  exists doc stamp created_at request,
    run.1 = inr doc /\
    chronicle run.2 =
      [EvUpsert doc; EvNow created_at; EvNow stamp; EvEmbed request] ++ chronicle w.
Proof. intros Hhealthy Hfields. apply (process_ticket_healthy_wp E Hhealthy ticket w Hfields). Qed.

(** When the provider answers and the store has no fault, a row with the
    seven required fields of an article whose id the store does not hold is
    stored: [process_kb_article] returns after one read, one request, one
    clock reading and one write, and nothing else. *)
Theorem process_kb_article_returns (E : Env) (article : row) (item_id : string)
    (w : World) :
  healthy E ->
  has_fields required_article_fields article ->
  article !! "KB Article #" = Some item_id ->
  store w !! item_id = None ->
  let run := process_kb_article E article w in
  exists doc updated request,
    run.1 = inr doc /\
    chronicle run.2 =
      [EvUpsert doc; EvNow updated; EvEmbed request; EvRead item_id] ++ chronicle w.
Proof.
  intros Hhealthy Hfields Hitem Hmissing.
  apply (process_kb_article_healthy_wp E Hhealthy article item_id w Hfields Hitem Hmissing).
Qed.

Lemma demo_env_healthy : healthy Demo.env.
Proof.
  split.
  - intros history [|text input] Hinput; [done|]. simpl. by eexists _, _.
  - done.
Qed.

Lemma process_ticket_returns_demo :
  exists doc stamp created_at request,
    (process_ticket Demo.env Demo.ticket1 Demo.mixed_world).1 = inr doc /\
    chronicle (process_ticket Demo.env Demo.ticket1 Demo.mixed_world).2 =
      [EvUpsert doc; EvNow created_at; EvNow stamp; EvEmbed request]
      ++ chronicle Demo.mixed_world.
Proof.
  apply (process_ticket_returns Demo.env Demo.ticket1 Demo.mixed_world demo_env_healthy).
  unfold has_fields, required_ticket_fields.
  repeat (apply Forall_cons; split; [by vm_compute; eexists|]). apply Forall_nil_2.
Defined.

Lemma process_kb_article_returns_demo :
  exists doc updated request,
    (process_kb_article Demo.env (Demo.kb1 "1.0") Demo.mixed_world).1 = inr doc /\
    chronicle (process_kb_article Demo.env (Demo.kb1 "1.0") Demo.mixed_world).2 =
      [EvUpsert doc; EvNow updated; EvEmbed request; EvRead "KB1"]
      ++ chronicle Demo.mixed_world.
Proof.
  apply (process_kb_article_returns Demo.env (Demo.kb1 "1.0") "KB1" Demo.mixed_world
           demo_env_healthy).
  - unfold has_fields, required_article_fields.
    repeat (apply Forall_cons; split; [by vm_compute; eexists|]). apply Forall_nil_2.
  - vm_compute. reflexivity.
  - vm_compute. reflexivity.
Defined.

End IngestionMore.

(** ** More on the statistics and the store *)

Module StatisticsMore.
Import Run StatisticsFacts.

Lemma table_total_insert_fresh table key count :
  table !! key = None ->
  table_total (<[key := count]> table) = (count + table_total table)%nat.
Proof.
  intros Hfresh. unfold table_total.
  rewrite map_fold_insert_L; [done| |done].
  intros. lia.
Qed.

Lemma table_total_insert table key count :
  (table_total (<[key := count]> table) + default 0%nat (table !! key))%nat
  = (count + table_total table)%nat.
Proof.
  destruct (table !! key) as [old|] eqn:Hkey; simpl.
  - rewrite <- (insert_delete_eq table key count).
    rewrite table_total_insert_fresh by apply lookup_delete_eq.
    rewrite <- (insert_delete_id table key old Hkey) at 2.
    rewrite table_total_insert_fresh by apply lookup_delete_eq. lia.
  - rewrite table_total_insert_fresh by done. lia.
Qed.

Lemma tally_total table key table' :
  tally table key = inr table' -> table_total table' = S (table_total table).
Proof.
  unfold tally. destruct key as [k|l]; [|done]. intros [= <-].
  pose proof (table_total_insert table k (default 0%nat (table !! k) + 1)). lia.
Qed.

Lemma count_articles_total_sum kb_articles stats0 stats :
  count_articles kb_articles stats0 = inr stats ->
  table_total (kb_article_categories stats)
  = (table_total (kb_article_categories stats0) + length kb_articles)%nat.
Proof.
  revert stats0. induction kb_articles as [|article rest IH]; intros stats0; simpl.
  - intros [= <-]. lia.
  - destruct (tally (kb_article_categories stats0) _) as [e|categories] eqn:Htally;
      simpl; [done|].
    intros Hrest. rewrite (IH _ Hrest). simpl.
    rewrite (tally_total _ _ _ Htally). lia.
Qed.

Lemma count_tickets_total_sum tickets stats0 stats :
  count_tickets tickets stats0 = inr stats ->
  table_total (ticket_quality_distribution stats)
  = (table_total (ticket_quality_distribution stats0) + length tickets)%nat /\
  table_total (user_proficiency_distribution stats)
  = (table_total (user_proficiency_distribution stats0) + length tickets)%nat.
Proof.
  revert stats0. induction tickets as [|ticket rest IH]; intros stats0; simpl.
  - intros [= <-]. lia.
  - destruct (tally (ticket_quality_distribution stats0) _) as [e|qualities] eqn:Hq;
      simpl; [done|].
    destruct (tally (user_proficiency_distribution stats0) _) as [e|proficiencies] eqn:Hp;
      simpl; [done|].
    intros Hrest. destruct (IH _ Hrest) as [Hqs Hps]. simpl in *.
    rewrite Hqs, Hps, (tally_total _ _ _ Hq), (tally_total _ _ _ Hp). lia.
Qed.

Lemma get_item_statistics_returned E w stats w' :
  get_item_statistics E w = (inr stats, w') ->
  item_statistics (stored_of_type "kb_article" w) (stored_of_type "ticket" w) = inr stats.
Proof.
  intros Hrun.
  destruct (store_fault E (chronicle w)) as [code|] eqn:Hfault1.
  { pose proof (get_item_statistics_fault E w) as Hfault.
    rewrite Hrun, Hfault1 in Hfault. by discriminate Hfault; left. }
  destruct (store_fault E (EvQuery "kb_article" :: chronicle w)) as [code|] eqn:Hfault2.
  { pose proof (get_item_statistics_fault E w) as Hfault.
    rewrite Hrun, Hfault2 in Hfault. by discriminate Hfault; right. }
  rewrite get_item_statistics_eq in Hrun by done. by injection Hrun as Hrun _.
Qed.

(** In the statistics every record is counted once in each of its tables:
    the counts of the categories add up to the number of articles, those of
    the qualities and those of the proficiencies to the number of tickets,
    and the totals are the numbers of stored records of each kind. *)
Theorem get_item_statistics_counts_add_up (E : Env) (w w' : World) (stats : Stats) :
  get_item_statistics E w = (inr stats, w') ->
  total_kb_articles stats = length (stored_of_type "kb_article" w) /\
  total_tickets stats = length (stored_of_type "ticket" w) /\
  table_total (kb_article_categories stats) = total_kb_articles stats /\
  table_total (ticket_quality_distribution stats) = total_tickets stats /\
  table_total (user_proficiency_distribution stats) = total_tickets stats.
Proof.
  intros Hrun. apply get_item_statistics_returned in Hrun.
  unfold item_statistics in Hrun.
  destruct (count_articles _ _) as [e|stats1] eqn:Harticles; simpl in Hrun; [done|].
  pose proof (count_articles_total_sum _ _ _ Harticles) as Hsum. simpl in Hsum.
  destruct (count_articles_spec _ _ _ Harticles) as (A1 & A2 & A3 & A4 & _).
  destruct (count_tickets_spec _ _ _ Hrun) as (T1 & T2 & T3 & _).
  destruct (count_tickets_total_sum _ _ _ Hrun) as [Hq Hp].
  rewrite A3 in Hq. rewrite A4 in Hp. simpl in *.
  assert (table_total (∅ : gmap string nat) = 0%nat) as Hempty by done.
  rewrite Hempty in *.
  rewrite T3, Hsum, Hq, Hp, T1, T2, A1, A2. done.
Qed.

Lemma get_item_statistics_counts_add_up_mixed :
  let run := get_item_statistics Demo.env Demo.mixed_world in
  table_total (kb_article_categories (value_of (mkStats 0 0 ∅ ∅ ∅) run.1)) = 2%nat.
Proof.
  intros run.
  assert (returned run.1 = true) as H by (vm_compute; reflexivity).
  apply (returned_value (mkStats 0 0 ∅ ∅ ∅)) in H.
  destruct (get_item_statistics_counts_add_up Demo.env Demo.mixed_world run.2
              (value_of (mkStats 0 0 ∅ ∅ ∅) run.1))
    as (Hkb & _ & Hsum & _).
  { rewrite <- H. apply surjective_pairing. }
  rewrite Hsum, Hkb. vm_compute. reflexivity.
Defined.

(** [get_item_statistics] only asks: it queries the articles and then the
    tickets, and leaves the store as it was; when the first query fails the
    second is not sent. *)
Theorem get_item_statistics_only_queries (E : Env) (w : World) :
  let run := get_item_statistics E w in
  store run.2 = store w /\
  (chronicle run.2 = EvQuery "ticket" :: EvQuery "kb_article" :: chronicle w \/
   chronicle run.2 = EvQuery "kb_article" :: chronicle w /\
   store_fault E (chronicle w) <> None /\ returned run.1 = false).
Proof.
  intros run. subst run. unfold get_item_statistics, bind.
  rewrite get_items_by_type_eq.
  destruct (store_fault E (chronicle w)) as [code|] eqn:Hfault; simpl.
  { split; [done|]. by right. }
  rewrite get_items_by_type_eq. unfold lift.
  change (chronicle (record_event (EvQuery "kb_article") w))
    with (EvQuery "kb_article" :: chronicle w).
  destruct (store_fault E (EvQuery "kb_article" :: chronicle w)); simpl.
  all: split; [done|]. all: by left.
Qed.

Lemma count_articles_list_category before article after l :
  groupable "category" before = true ->
  article !! "category" = Some (VVec l) ->
  forall stats0, count_articles (before ++ article :: after) stats0 = Raise TypeError.
Proof.
  intros Hbefore Harticle. induction before as [|first before IH]; intros stats0; simpl.
  - unfold dict_get. by rewrite Harticle.
  - apply andb_true_iff in Hbefore as [Hfirst Hbefore].
    destruct (tally_hashable (kb_article_categories stats0) _ Hfirst) as [table Htable].
    unfold group_of in Htable. rewrite Htable. simpl. by apply IH.
Qed.

(** One article whose category is a list makes the statistics fail: the
    list cannot be a key of the table, and [TypeError] is raised instead
    of any count. *)
Theorem item_statistics_unhashable_category (kb_before : list dict) (article : dict)
    (kb_after tickets : list dict) (l : vector) :
  groupable "category" kb_before = true ->
  article !! "category" = Some (VVec l) ->
  item_statistics (kb_before ++ article :: kb_after) tickets = Raise TypeError.
Proof.
  intros Hbefore Harticle. unfold item_statistics.
  by rewrite (count_articles_list_category kb_before article kb_after l).
Qed.

Lemma item_statistics_unhashable_category_demo :
  item_statistics ([∅] ++ <["category" := VVec [1%Q]]> ∅ :: []) [] = Raise TypeError.
Proof.
  apply (item_statistics_unhashable_category [∅] (<["category" := VVec [1%Q]]> ∅) [] []
           [1%Q]).
  - reflexivity.
  - apply lookup_insert_eq.
Defined.

Lemma elem_of_stored_of_type item_type w doc :
  doc ∈ stored_of_type item_type w <->
  exists item_id, store w !! item_id = Some doc /\ doc !! "type" = Some (VStr item_type).
Proof.
  unfold stored_of_type. rewrite list_elem_of_In, filter_In, <- list_elem_of_In.
  rewrite list_elem_of_fmap. unfold has_type. split.
  - intros [([item_id doc'] & -> & Hin) Htype]. simpl in *.
    apply elem_of_map_to_list in Hin. exists item_id. split; [done|].
    destruct (doc' !! "type") as [[t|l]|]; try done.
    by apply String.eqb_eq in Htype as ->.
  - intros (item_id & Hstore & Htype). split.
    + exists (item_id, doc). split; [done|]. by apply elem_of_map_to_list.
    + rewrite Htype. apply String.eqb_refl.
Qed.

(** [get_items_by_type] returns exactly the stored documents whose
    ["type"] is the one asked for: every returned document is stored with
    that type, every stored document of that type is returned; the store is
    left as it was. *)
Theorem get_items_by_type_exact (E : Env) (item_type : string) (w w' : World)
    (items : list dict) :
  get_items_by_type E item_type w = (inr items, w') ->
  (forall doc,
     doc ∈ items <->
     exists item_id,
       store w !! item_id = Some doc /\ doc !! "type" = Some (VStr item_type)) /\
  (length items <= size (store w))%nat /\
  store w' = store w.
Proof.
  rewrite get_items_by_type_eq.
  destruct (store_fault E (chronicle w)); [done|]. intros [= <- <-].
  split; [intros doc; apply elem_of_stored_of_type|]. split; [|done].
  unfold stored_of_type.
  etransitivity; [apply List.filter_length_le|].
  by rewrite length_map, length_map_to_list.
Qed.

Lemma get_items_by_type_exact_mixed :
  let run := get_items_by_type Demo.env "kb_article" Demo.mixed_world in
  (length (value_of [] run.1) <= 3)%nat.
Proof.
  intros run.
  destruct (get_items_by_type_exact Demo.env "kb_article" Demo.mixed_world run.2
              (value_of [] run.1)) as (_ & Hlen & _).
  { assert (returned run.1 = true) as H by (vm_compute; reflexivity).
    apply (returned_value []) in H. rewrite <- H. apply surjective_pairing. }
  etransitivity; [exact Hlen|]. vm_compute. repeat constructor.
Defined.

(** Writing and reading back: without a fault of the store, [get_item] of
    the id of a document just written with [upsert_item] returns that
    document, whatever was stored under the id before; the documents under
    other ids are as they were, and an id the store does not hold reads as
    [None], not as an exception. *)
Theorem upsert_item_get_item (E : Env) (item : dict) (item_id : string) (w : World) :
  store_fault E (chronicle w) = None ->
  store_fault E (EvUpsert item :: chronicle w) = None ->
  item !! "id" = Some (VStr item_id) ->
  let written := upsert_item E item w in
  written.1 = inr item /\
  (get_item E item_id written.2).1 = inr (Some item) /\
  (forall other, other <> item_id ->
     (get_item E other written.2).1 = (get_item E other w).1) /\
  (forall other, store w !! other = None -> (get_item E other w).1 = inr None).
Proof.
  intros Hfault Hfault' Hid written. subst written.
  unfold upsert_item, get_item. rewrite Hfault, Hid. simpl. rewrite Hfault'. simpl.
  split; [done|]. split; [by rewrite lookup_insert_eq|].
  split.
  - intros other Hother. by rewrite lookup_insert_ne.
  - intros other Hother. by rewrite Hother.
Qed.

Lemma upsert_item_get_item_demo :
  let item : dict := <["id" := VStr "A9"]> ∅ in
  (get_item Demo.env "A9" (upsert_item Demo.env item Demo.mixed_world).2).1
    = inr (Some item).
Proof.
  intros item.
  destruct (upsert_item_get_item Demo.env item "A9" Demo.mixed_world) as (_ & Hread & _).
  - reflexivity.
  - reflexivity.
  - apply lookup_insert_eq.
  - exact Hread.
Defined.

End StatisticsMore.

(** ** Retrieval *)

Module RetrievalFacts.
Import Similarity SimilarityFacts Run StatisticsFacts.

Lemma comprehension_each {A B} (f : A -> result B) l out :
  comprehension f l = inr out -> Forall2 (fun x y => f x = inr y) l out.
Proof.
  revert out. induction l as [|x l IH]; intros out; simpl.
  - intros [= <-]. constructor.
  - destruct (f x) as [e|y] eqn:Hx; simpl; [done|].
    destruct (comprehension f l) as [e|ys]; simpl; [done|].
    intros [= <-]. constructor; [done|by apply IH].
Qed.

Lemma comprehension_raises {A B} (f : A -> result B) l e :
  comprehension f l = inl e -> exists x, x ∈ l /\ f x = inl e.
Proof.
  induction l as [|x l IH]; simpl; [done|].
  destruct (f x) as [e'|y] eqn:Hx; simpl.
  - intros [= <-]. exists x. split; [left|done].
  - destruct (comprehension f l) as [e'|ys]; simpl; [|done].
    intros [= <-]. destruct IH as (x' & Hin & Hx'); [done|].
    exists x'. split; [by right|done].
Qed.

Lemma StronglySorted_weaken {A} (R1 R2 : relation A) l :
  (forall x y, R1 x y -> R2 x y) -> StronglySorted R1 l -> StronglySorted R2 l.
Proof.
  intros HR. induction 1 as [|x l _ IH Hx]; constructor; [done|].
  eapply Forall_impl; [exact Hx|]. intros y. apply HR.
Qed.

(** The indices of a ranking, and their order when the similarities are
    numbers. *)
Lemma rank_indices tim sims top_k :
  Forall (fun idx => (idx < length sims)%nat) (rank tim sims top_k) /\
  (forallb is_number sims = true ->
   StronglySorted (fun i j => float_le (similarity_at sims j) (similarity_at sims i))
     (rank tim sims top_k)).
Proof.
  destruct (rank_spec tim sims top_k) as (rest & Hsorted & Hperm). split.
  - apply Forall_forall. intros idx Hin.
    assert (idx ∈ seq 0 (length sims)) as Hseq.
    { rewrite <- Hperm. apply elem_of_app. by left. }
    apply list_elem_of_In, in_seq in Hseq. lia.
  - intros Hnumbers. specialize (Hsorted Hnumbers).
    apply StronglySorted_app_1_l in Hsorted.
    eapply StronglySorted_weaken; [|exact Hsorted].
    intros i j [Hlt|[Heq _]]; [by left|by apply float_eq_le].
Qed.



(** *** [search_similar_texts] *)





Lemma rank_all tim sims top_k :
  Z.of_nat (length sims) <= top_k -> rank tim sims top_k ≡ₚ seq 0 (length sims).
Proof.
  intros Hk. unfold rank, slice_to. destruct (Z.leb_spec 0 top_k); [|lia].
  rewrite firstn_all2.
  - apply sorted_reverse_perm.
  - rewrite SimilarityMore.sorted_reverse_length, length_seq. lia.
Qed.

Lemma text_results_index_error sqrt q texts embeddings sims indices :
  Forall2 (fun emb s => cosine_similarity sqrt q emb = inr s) embeddings sims ->
  Forall (fun idx => (idx < length embeddings)%nat) indices ->
  Exists (fun idx => (length texts <= idx)%nat) indices ->
  text_results sqrt q texts embeddings indices = Raise IndexError.
Proof.
  intros Hsims Hall Hex. induction indices as [|idx rest IH]; simpl.
  { by apply Exists_nil in Hex. }
  apply Forall_cons in Hall as [Hidx Hall].
  unfold py_index.
  destruct (lookup_lt_is_Some_2 embeddings idx Hidx) as [emb Hemb].
  rewrite Hemb. simpl.
  destruct (Forall2_lookup_l _ _ _ _ _ Hsims Hemb) as (s & _ & Hcos).
  rewrite Hcos. simpl.
  destruct (texts !! idx) as [text|] eqn:Htext; simpl; [|done].
  apply Exists_cons in Hex as [Hhere|Hrest].
  - apply lookup_lt_Some in Htext. lia.
  - by rewrite IH.
Qed.

(** When [texts] is shorter than [embeddings] and all candidates are
    asked for, [search_similar_texts] raises [IndexError] after the
    embedding of the query was fetched: a candidate without a text is not
    skipped. *)
Theorem search_similar_texts_short_texts (E : Env) (sqrt : Q -> Q)
    (tim : list float64 -> nat -> nat -> bool) (query : string)
    (texts : list string) (embeddings : list vector) (top_k : Z) (w w1 : World)
    (query_embedding : vector) :
  get_embedding E query w = (inr query_embedding, w1) ->
  Forall (fun emb => length emb = length query_embedding) embeddings ->
  (length texts < length embeddings)%nat ->
  Z.of_nat (length embeddings) <= top_k ->
  search_similar_texts E sqrt tim query texts embeddings top_k w = (inl IndexError, w1).
Proof.
  intros Hq Hdims Hshort Hk. unfold search_similar_texts, bind, lift. rewrite Hq.
  f_equal. unfold find_most_similar.
  destruct (similarities_of_total sqrt query_embedding embeddings Hdims) as [sims Hs].
  rewrite Hs. simpl.
  pose proof (similarities_of_each _ _ _ _ Hs) as Heach.
  pose proof (Forall2_length _ _ _ Heach) as Hlen.
  apply (text_results_index_error _ _ _ _ sims); [done| |].
  - rewrite Hlen. apply rank_indices.
  - apply Exists_exists. exists (length texts). split; [|done].
    rewrite rank_all by lia. apply list_elem_of_In, in_seq. lia.
Qed.

Lemma search_similar_texts_short_texts_demo :
  (search_similar_texts Demo.env (fun x => x) (fun _ _ _ => false) "reset" ["a"]
     [[0; 1; 0]; [1; 0; 0]]%Q 5 Demo.empty_world).1 = inl IndexError.
Proof.
  rewrite (search_similar_texts_short_texts Demo.env (fun x => x) (fun _ _ _ => false)
             "reset" ["a"]
             [[0; 1; 0]; [1; 0; 0]]%Q 5 Demo.empty_world
             (get_embedding Demo.env "reset" Demo.empty_world).2 Demo.unit_vector).
  - reflexivity.
  - reflexivity.
  - repeat constructor.
  - simpl. lia.
  - simpl. lia.
Defined.

(** *** [search_similar_items] *)

Lemma stored_of_type_store item_type w w' :
  store w' = store w -> stored_of_type item_type w' = stored_of_type item_type w.
Proof. unfold stored_of_type. by intros ->. Qed.





Lemma search_similar_items_effects E sqrt tim query item_type top_k w :
  let run := search_similar_items E sqrt tim query item_type top_k w in
  store run.2 = store w /\
  exists embeds,
    Forall provider_event embeds /\
    (chronicle run.2 = EvQuery item_type :: embeds ++ chronicle w \/
     chronicle run.2 = embeds ++ chronicle w /\ returned run.1 = false).
Proof.
  intros run. subst run. unfold search_similar_items.
  apply wp_bind. apply wp_get_embedding. intros r w1 evs Hevs Hall Hstore.
  destruct r as [e|q]; simpl.
  { split; [done|]. exists evs. split; [done|]. by right. }
  unfold wp, bind. rewrite get_items_by_type_eq.
  destruct (store_fault E (chronicle w1)); simpl;
    (split; [done|]; exists evs; split; [done|]; left; by rewrite Hevs).
Qed.


(** [search_similar_items] only reads: whatever it returns or raises, the
    store is as before, and its effects are the requests and waits of the
    query embedding followed by one query for the items of the kind, or
    the requests and waits alone when the embedding failed. *)
Theorem search_similar_items_only_reads (E : Env) (sqrt : Q -> Q)
    (tim : list float64 -> nat -> nat -> bool)
    (query item_type : string) (top_k : Z) (w : World) :
  let run := search_similar_items E sqrt tim query item_type top_k w in
  store run.2 = store w /\
  exists embeds,
    Forall provider_event embeds /\
    (chronicle run.2 = EvQuery item_type :: embeds ++ chronicle w \/
     chronicle run.2 = embeds ++ chronicle w /\ returned run.1 = false).
Proof. apply search_similar_items_effects. Qed.




Lemma comprehension_subscript_missing key items item :
  item ∈ items -> item !! key = None ->
  comprehension (fun item => subscript item key) items = Raise (KeyError key).
Proof.
  intros Hin Hmissing.
  destruct (comprehension _ items) as [e|out] eqn:Hrun.
  - destruct (comprehension_raises _ _ _ Hrun) as (x & _ & Hx).
    unfold subscript in Hx. destruct (x !! key); [done|]. by injection Hx as <-.
  - apply comprehension_each in Hrun.
    destruct (proj1 (list_elem_of_lookup _ _) Hin) as [i Hi].
    destruct (Forall2_lookup_l _ _ _ _ _ Hrun Hi) as (v & _ & Hv).
    unfold subscript in Hv. by rewrite Hmissing in Hv.
Qed.

(** One stored item of the kind without an ["embedding"] makes every search
    of that kind fail: once the query embedding is there and the store
    answers, [search_similar_items] raises [KeyError] for ["embedding"],
    whatever the query and [top_k] are. *)
Theorem search_similar_items_missing_embedding (E : Env) (sqrt : Q -> Q)
    (tim : list float64 -> nat -> nat -> bool) (query item_type : string) (top_k : Z) (w w1 : World) (query_embedding : vector)
    (item : dict) :
  get_embedding E query w = (inr query_embedding, w1) ->
  store_fault E (chronicle w1) = None ->
  item ∈ stored_of_type item_type w ->
  item !! "embedding" = None ->
  search_similar_items E sqrt tim query item_type top_k w
    = (inl (KeyError "embedding"), record_event (EvQuery item_type) w1).
Proof.
  intros Hq Hfault Hin Hmissing. unfold search_similar_items, bind. rewrite Hq.
  rewrite get_items_by_type_eq, Hfault. unfold lift. f_equal.
  unfold similar_items.
  rewrite (comprehension_subscript_missing "embedding" _ item); [done| |done].
  rewrite (stored_of_type_store item_type w w1); [done|].
  pose proof (wp_get_embedding E query w (fun _ w' => store w' = store w)) as Hwp.
  unfold wp in Hwp. rewrite Hq in Hwp. apply Hwp. by intros.
Qed.

Lemma search_similar_items_missing_embedding_mixed :
  (search_similar_items Demo.env (fun x => x) (fun _ _ _ => false) "reset" "kb_article" 0
     Demo.mixed_world).1
    = inl (KeyError "embedding").
Proof.
  rewrite (search_similar_items_missing_embedding Demo.env (fun x => x)
             (fun _ _ _ => false) "reset" "kb_article" 0 Demo.mixed_world
             (get_embedding Demo.env "reset" Demo.mixed_world).2 Demo.unit_vector
             (<["id" := VStr "A1"]> (<["type" := VStr "kb_article"]> ∅))).
  - reflexivity.
  - reflexivity.
  - reflexivity.
  - apply StatisticsMore.elem_of_stored_of_type. exists "A1". split.
    + apply lookup_insert_eq.
    + vm_compute. reflexivity.
  - vm_compute. reflexivity.
Defined.

Lemma filter_Permutation {A} (f : A -> bool) l l' :
  l ≡ₚ l' -> List.filter f l ≡ₚ List.filter f l'.
Proof.
  induction 1 as [|x l l' _ IH|x y l|l l' l'' _ IH1 _ IH2]; simpl.
  - done.
  - destruct (f x); [by constructor|done].
  - destruct (f x), (f y); try done. apply perm_swap.
  - by etransitivity.
Qed.

Lemma filter_nil_sub {A} (f : A -> bool) l l' :
  (forall x, x ∈ l' -> x ∈ l) -> List.filter f l = [] -> List.filter f l' = [].
Proof.
  intros Hsub Hnil.
  destruct (List.filter f l') as [|x rest] eqn:Hl'; [done|].
  assert (In x (List.filter f l')) as Hin by (rewrite Hl'; by left).
  apply filter_In in Hin as [Hin Hf].
  assert (In x (List.filter f l)) as Hin'.
  { apply filter_In. split; [|done]. by apply list_elem_of_In, Hsub, list_elem_of_In. }
  by rewrite Hnil in Hin'.
Qed.

(** The first document of a kind in the store. *)
Lemma stored_of_type_first item_type item_id doc w w' :
  stored_of_type item_type w = [] ->
  doc !! "type" = Some (VStr item_type) ->
  store w' = <[item_id := doc]> (store w) ->
  stored_of_type item_type w' = [doc].
Proof.
  intros Hnone Htype Hstore. unfold stored_of_type in *. rewrite Hstore.
  apply Permutation_singleton_r.
  rewrite <- (insert_delete_eq (store w)).
  rewrite (filter_Permutation (has_type item_type) _ _
             (Permutation_map snd
                (map_to_list_insert (delete item_id (store w)) item_id doc
                   (lookup_delete_eq _ _)))).
  simpl. unfold has_type at 1. rewrite Htype, String.eqb_refl.
  rewrite (filter_nil_sub (has_type item_type) (map snd (map_to_list (store w))));
    [done| |exact Hnone].
  intros x Hx. apply list_elem_of_In, in_map_iff in Hx as ([k d] & <- & Hin).
  apply list_elem_of_In, elem_of_map_to_list, lookup_delete_Some in Hin as [_ Hin].
  apply list_elem_of_In, in_map_iff. exists (k, d). split; [done|].
  by apply list_elem_of_In, elem_of_map_to_list.
Qed.

Lemma rank_singleton tim s top_k : 0 < top_k -> rank tim [s] top_k = [0%nat].
Proof.
  intros Hk. unfold rank, slice_to. destruct (Z.leb_spec 0 top_k); [|lia].
  assert (sorted_reverse tim [s] (seq 0 (length [s])) = [0%nat]) as ->
    by (by destruct s as [x|positive|]).
  destruct (Z.to_nat top_k) as [|n] eqn:Hn; [lia|by destruct n].
Qed.

(** An article stored by [process_kb_article] in a store without articles
    is what a search for articles then finds: when the embedding of the
    query has the dimension of the stored one and the store answers,
    [search_similar_items] with a positive [top_k] returns one result, with
    the id and the title of the row. *)
Theorem process_kb_article_then_search (E : Env) (sqrt : Q -> Q)
    (tim : list float64 -> nat -> nat -> bool) (article : row)
    (item_id query : string) (top_k : Z) (w w1 w2 : World) (doc : dict)
    (query_embedding : vector) :
  article !! "KB Article #" = Some item_id ->
  store w !! item_id = None ->
  stored_of_type "kb_article" w = [] ->
  process_kb_article E article w = (inr doc, w1) ->
  get_embedding E query w1 = (inr query_embedding, w2) ->
  store_fault E (chronicle w2) = None ->
  (forall v, doc !! "embedding" = Some (VVec v) -> length v = length query_embedding) ->
  0 < top_k ->
  exists title score,
    article !! "Title" = Some title /\
    search_similar_items E sqrt tim query "kb_article" top_k w1
      = (inr [mkItemHit (VStr item_id) "kb_article" (VStr title) score],
         record_event (EvQuery "kb_article") w2).
Proof.
  intros Hitem Hmissing Hnone Hrun Hq Hfault Hdim Hk.
  pose proof (wp_elim _ _ _ _ _
                (IngestionMore.process_kb_article_create_spec E article item_id w
                   Hitem Hmissing) Hrun) as Hspec.
  destruct Hspec as (version & category & title & introduction & instructions & keywords
                     & updated & embedding & embeds & _ & _ & Htitle & _ & _ & _
                     & Hdoc & _ & _ & _ & _ & Hstore).
  assert (doc !! "embedding" = Some (VVec embedding)) as Hembedding.
  { rewrite Hdoc. unfold kb_article_document.
    rewrite !lookup_insert_ne by done. apply lookup_insert_eq. }
  assert (doc !! "type" = Some (VStr "kb_article")) as Htype.
  { rewrite Hdoc. unfold kb_article_document.
    rewrite !lookup_insert_ne by done. apply lookup_insert_eq. }
  assert (doc !! "title" = Some (VStr title)) as Hdoctitle.
  { rewrite Hdoc. unfold kb_article_document.
    rewrite !lookup_insert_ne by done. apply lookup_insert_eq. }
  assert (doc !! "id" = Some (VStr item_id)) as Hid.
  { rewrite Hdoc. unfold kb_article_document. apply lookup_insert_eq. }
  pose proof (stored_of_type_first "kb_article" item_id doc w w1 Hnone Htype Hstore)
    as Hstored.
  assert (store w2 = store w1) as Hstore2.
  { pose proof (wp_get_embedding E query w1 (fun _ w' => store w' = store w1)) as Hwp.
    unfold wp in Hwp. rewrite Hq in Hwp. apply Hwp. by intros. }
  exists title,
    (float_div (dot_aligned query_embedding embedding)
       (np_linalg_norm sqrt query_embedding * np_linalg_norm sqrt embedding)%Q).
  split; [done|].
  unfold search_similar_items, bind. rewrite Hq, get_items_by_type_eq, Hfault.
  unfold lift. f_equal.
  rewrite (stored_of_type_store "kb_article" w1 w2 Hstore2), Hstored.
  unfold similar_items, find_most_similar_stored. simpl.
  unfold subscript, content_key. simpl. rewrite Hembedding, Hdoctitle. simpl.
  unfold cosine_similarity.
  rewrite np_dot_aligned by (symmetry; by apply Hdim). simpl.
  rewrite rank_singleton by done. simpl.
  unfold py_index, subscript, content_key. simpl.
  rewrite Hembedding. simpl.
  unfold cosine_similarity. rewrite np_dot_aligned by (symmetry; by apply Hdim).
  simpl. by rewrite Hid, Hdoctitle.
Qed.

Lemma process_kb_article_then_search_demo :
  let stored := process_kb_article Demo.env (Demo.kb1 "1.0") Demo.empty_world in
  exists score,
    (search_similar_items Demo.env (fun x => x) (fun _ _ _ => false) "reset"
       "kb_article" 5 stored.2).1
      = inr [mkItemHit (VStr "KB1") "kb_article" (VStr "Reset") score].
Proof.
  intros stored.
  destruct (process_kb_article_then_search Demo.env (fun x => x) (fun _ _ _ => false)
              (Demo.kb1 "1.0") "KB1" "reset" 5 Demo.empty_world stored.2
              (get_embedding Demo.env "reset" stored.2).2
              (value_of ∅ stored.1) Demo.unit_vector)
    as (title & score & Htitle & Hrun).
  - vm_compute. reflexivity.
  - vm_compute. reflexivity.
  - vm_compute. reflexivity.
  - assert (returned stored.1 = true) as H by (vm_compute; reflexivity).
    apply (returned_value ∅) in H. rewrite <- H. apply surjective_pairing.
  - reflexivity.
  - reflexivity.
  - intros v Hv.
    assert (field_of "embedding" stored.1 = Some (VVec Demo.unit_vector)) as Hfield
      by (vm_compute; reflexivity).
    apply field_of_value in Hfield. rewrite Hfield in Hv. by injection Hv as <-.
  - lia.
  - exists score. rewrite Hrun. simpl.
    assert (Demo.kb1 "1.0" !! "Title" = Some "Reset") as Hreset by (vm_compute; reflexivity).
    rewrite Hreset in Htitle. by injection Htitle as <-.
Defined.

End RetrievalFacts.

(** ** The utilities *)

Module UtilsFacts.
Import Similarity SimilarityFacts.

(** With a limit that leaves room for the suffix, [truncate_string] keeps
    its promise: the result is never longer than the limit; it is the
    string itself when that fits, and otherwise the first
    [max_length - len(suffix)] characters followed by the suffix, exactly
    [max_length] long.  Truncating twice changes nothing more. *)
Theorem truncate_string_within_limit (s suffix : list Ascii.ascii) (max_length : Z) :
  Z.of_nat (length suffix) <= max_length ->
  let out := truncate_string s max_length suffix in
  Z.of_nat (length out) <= max_length /\
  (Z.of_nat (length s) <= max_length -> out = s) /\
  (max_length < Z.of_nat (length s) ->
   out = firstn (Z.to_nat (max_length - Z.of_nat (length suffix))) s ++ suffix /\
   Z.of_nat (length out) = max_length) /\
  truncate_string out max_length suffix = out.
Proof.
  intros Hroom out.
  assert (Z.of_nat (length out) <= max_length /\
          (max_length < Z.of_nat (length s) ->
           out = firstn (Z.to_nat (max_length - Z.of_nat (length suffix))) s ++ suffix /\
           Z.of_nat (length out) = max_length)) as [Hlen Hcut].
  { subst out. unfold truncate_string, slice_to.
    destruct (Z.leb_spec (Z.of_nat (length s)) max_length) as [Hfits|Hlong].
    - split; [done|lia].
    - destruct (Z.leb_spec 0 (max_length - Z.of_nat (length suffix))); [|lia].
      rewrite length_app, length_firstn. split; [lia|]. intros _. split; [done|lia]. }
  split; [done|]. split.
  - intros Hfits. subst out. unfold truncate_string.
    by destruct (Z.leb_spec (Z.of_nat (length s)) max_length); [|lia].
  - split; [done|]. unfold truncate_string at 1.
    by destruct (Z.leb_spec (Z.of_nat (length out)) max_length); [|lia].
Qed.

Lemma truncate_string_within_limit_demo :
  truncate_string (String.list_ascii_of_string "This is a very long string") 10
    (String.list_ascii_of_string "...") = String.list_ascii_of_string "This is...".
Proof.
  destruct (truncate_string_within_limit (String.list_ascii_of_string "This is a very long string")
              (String.list_ascii_of_string "...") 10) as (_ & _ & Hcut & _).
  - simpl. lia.
  - destruct Hcut as [Hout _]; [simpl; lia|]. exact Hout.
Defined.

(** With a limit shorter than the suffix, [truncate_string] does not
    truncate to the limit: a string longer than the limit loses only
    [len(suffix) - max_length] characters from its end before the suffix is
    added, and the result is longer than [max_length]. *)
Theorem truncate_string_short_limit (s suffix : list Ascii.ascii) (max_length : Z) :
  max_length < Z.of_nat (length suffix) ->
  max_length < Z.of_nat (length s) ->
  let out := truncate_string s max_length suffix in
  out = firstn (length s - Z.to_nat (Z.of_nat (length suffix) - max_length)) s ++ suffix /\
  max_length < Z.of_nat (length out).
Proof.
  intros Hshort Hlong out. subst out. unfold truncate_string, slice_to.
  destruct (Z.leb_spec (Z.of_nat (length s)) max_length); [lia|].
  destruct (Z.leb_spec 0 (max_length - Z.of_nat (length suffix))); [lia|].
  replace (Z.to_nat (Z.of_nat (length s) + (max_length - Z.of_nat (length suffix))))
    with (length s - Z.to_nat (Z.of_nat (length suffix) - max_length))%nat by lia.
  split; [done|]. rewrite length_app. lia.
Qed.

Lemma truncate_string_short_limit_demo :
  truncate_string (String.list_ascii_of_string "abcdefgh") 2 (String.list_ascii_of_string "...")
    = String.list_ascii_of_string "abcdefg...".
Proof.
  destruct (truncate_string_short_limit (String.list_ascii_of_string "abcdefgh")
              (String.list_ascii_of_string "...") 2) as [Hout _].
  - simpl. lia.
  - simpl. lia.
  - exact Hout.
Defined.



Lemma safe_get_none keys : safe_get JNone keys = Return JNone.
Proof. by destruct keys. Qed.

(** With names as keys [safe_get] never raises: it returns the value at
    the end of the path through the nested dictionaries, and [None] when a
    name is missing or when the path runs into something that is not a
    dictionary. *)
Theorem safe_get_names (dct : json) (names : list string) :
  safe_get dct (KStr <$> names) = Return (default JNone (descend dct names)).
Proof.
  revert dct. induction names as [|name rest IH]; intros dct; [done|].
  cbn [fmap list_fmap safe_get descend].
  destruct dct as [|n|s|items|entries]; try done.
  simpl. destruct (entries !! name) as [v|]; [apply IH|done].
Qed.

(** [safe_get] is not safe for an integer key: when the path of names
    leads to a list and the next key is an integer outside the list, the
    [IndexError] is not caught and leaves the function. *)
Theorem safe_get_index_error (dct : json) (names : list string) (items : list json)
    (index : Z) (rest : list key) :
  descend dct names = Some (JList items) ->
  index < - Z.of_nat (length items) \/ Z.of_nat (length items) <= index ->
  safe_get dct ((KStr <$> names) ++ KInt index :: rest) = Raise IndexError.
Proof.
  revert dct. induction names as [|name names IH]; intros dct Hpath Hout.
  - injection Hpath as ->. cbn [fmap list_fmap app safe_get json_getitem].
    unfold sequence_position.
    destruct (Z.leb_spec 0 index), (Z.ltb_spec index (Z.of_nat (length items)));
      simpl; try lia; try done.
    all: destruct (Z.ltb_spec index 0), (Z.leb_spec (- Z.of_nat (length items)) index);
      simpl; try lia; done.
  - cbn [fmap list_fmap app safe_get]. cbn [descend] in Hpath.
    destruct dct as [|n|s|items'|entries]; try done.
    simpl. destruct (entries !! name) as [v|]; [by apply IH|done].
Qed.

Lemma safe_get_index_error_demo :
  safe_get (JDict (<["tags" := JList [JStr "a"; JStr "b"]]> ∅))
    ((KStr <$> ["tags"]) ++ KInt 2 :: []) = Raise IndexError.
Proof.
  apply (safe_get_index_error (JDict (<["tags" := JList [JStr "a"; JStr "b"]]> ∅))
           ["tags"] [JStr "a"; JStr "b"] 2 []).
  - reflexivity.
  - right. simpl. lia.
Defined.

(** A walk along two lists of keys is the walk along the first followed,
    from where it ended, by the walk along the second. *)
Theorem safe_get_app (dct : json) (keys1 keys2 : list key) :
  safe_get dct (keys1 ++ keys2) =
  rbind (safe_get dct keys1) (fun v => safe_get v keys2).
Proof.
  revert dct. induction keys1 as [|k keys1 IH]; intros dct; [done|].
  cbn [app safe_get].
  destruct (json_getitem dct k) as [[]|v]; simpl; try done.
  - by rewrite safe_get_none.
  - by rewrite safe_get_none.
Qed.

End UtilsFacts.
